(** * ZERO Execution Engine: section parser, protocol state machine and
      session store of [index.tsx], embedded and verified.

    Strings are JavaScript strings: finite sequences of UTF-16 code units.
    Regular expressions of the source are embedded as the matchers they
    denote (no [u] and no [m] flag is used anywhere in the source, so
    matching is per code unit and [$] is the end of the input). *)

From Stdlib Require Import List NArith ZArith Bool String Ascii Lia.
From Stdlib Require Import DecimalString Permutation Sorted.
Import ListNotations.

(* ================================================================== *)
(** * Part I. The model                                                 *)
(* ================================================================== *)

(** ** JavaScript strings *)

Definition jsstring := list N.

(** A literal of the source (ASCII only) as a sequence of code units. *)
Definition lit (s : string) : jsstring :=
  map N_of_ascii (list_ascii_of_string s).

Definition LF : N := 10%N.
Definition LBRACKET : N := 91%N.
Definition RBRACKET : N := 93%N.

(** ECMAScript [LineTerminator]: what [.] refuses to match. *)
Definition isLineTerminator (c : N) : bool :=
  existsb (N.eqb c) [10; 13; 8232; 8233]%N.

(** ECMAScript [WhiteSpace] and [LineTerminator]: the class [\s], and the
    code units removed by [String.prototype.trim]. *)
Definition isWhiteSpace (c : N) : bool :=
  existsb (N.eqb c)
    [9; 10; 11; 12; 13; 32; 160; 5760; 8232; 8233; 8239; 8287; 12288; 65279]%N
  || ((8192 <=? c) && (c <=? 8202))%N.

Fixpoint str_eqb (a b : jsstring) : bool :=
  match a, b with
  | [], [] => true
  | x :: a', y :: b' => N.eqb x y && str_eqb a' b'
  | _, _ => false
  end.

(** [s.startsWith(p)] *)
Fixpoint startsWith (p s : jsstring) : bool :=
  match p, s with
  | [], _ => true
  | x :: p', y :: s' => N.eqb x y && startsWith p' s'
  | _ :: _, [] => false
  end.

(** [s.includes(p)] *)
Fixpoint includes (p s : jsstring) : bool :=
  startsWith p s ||
  match s with
  | [] => false
  | _ :: s' => includes p s'
  end.

Fixpoint trimStart (s : jsstring) : jsstring :=
  match s with
  | [] => []
  | c :: r => if isWhiteSpace c then trimStart r else s
  end.

Definition trimEnd (s : jsstring) : jsstring := rev (trimStart (rev s)).

(** [s.trim()] *)
Definition trim (s : jsstring) : jsstring := trimEnd (trimStart s).

(** [s.substring(0, n)] *)
Definition substring0 (n : nat) (s : jsstring) : jsstring := firstn n s.

(** [parts.join(sep)] *)
Fixpoint join (sep : jsstring) (parts : list jsstring) : jsstring :=
  match parts with
  | [] => []
  | [p] => p
  | p :: rest => p ++ sep ++ join sep rest
  end.

(** ** Section parser ([parseResponse], index.tsx lines 130-171) *)

Record Section := mkSection { title : jsstring; content : jsstring }.

Record ChainData := mkChainData {
  task : option Section;
  constraints : option Section;
  refinedAnswers : list Section
}.

(** [data: ChainData | Section[]] *)
Inductive ParsedData :=
| Flat (sections : list Section)
| Chain (chainData : ChainData).

Record ParsedResponse := mkParsed { isChainMode : bool; data : ParsedData }.

(** [text.match(/\[.*?\]/)]: after an opening bracket, [.*?] walks over
    code units that are not line terminators until the first [\]]. *)
Fixpoint dot_until_close (s : jsstring) : bool :=
  match s with
  | [] => false
  | c :: r =>
      if N.eqb c RBRACKET then true
      else if isLineTerminator c then false
      else dot_until_close r
  end.

Fixpoint has_bracket_tag (s : jsstring) : bool :=
  match s with
  | [] => false
  | c :: r => (N.eqb c LBRACKET && dot_until_close r) || has_bracket_tag r
  end.

(** The group [([^\]]+)\]] read after the opening bracket: every code unit
    up to the first closing bracket; [None] when no bracket closes. *)
Fixpoint title_group (s : jsstring) : option (jsstring * jsstring) :=
  match s with
  | [] => None
  | c :: r =>
      if N.eqb c RBRACKET then Some ([], r)
      else match title_group r with
           | Some (t, rest) => Some (c :: t, rest)
           | None => None
           end
  end.

(** [\s*], greedy: the number of leading white-space units and the rest. *)
Fixpoint skip_space (s : jsstring) : nat * jsstring :=
  match s with
  | [] => (O, [])
  | c :: r =>
      if isWhiteSpace c then let (n, rest) := skip_space r in (S n, rest)
      else (O, s)
  end.

(** The lookahead [(?=\n\n\[|$)]. *)
Definition section_end (s : jsstring) : bool :=
  match s with
  | [] => true
  | _ => startsWith [LF; LF; LBRACKET] s
  end.

(** [([\s\S]*?)] in front of the lookahead: the shortest prefix after
    which the lookahead holds. The end of input always satisfies it, so this
    part of the expression never fails and never makes [\s*] give back. *)
Fixpoint content_group (s : jsstring) : jsstring :=
  match s with
  | [] => []
  | c :: r => if section_end s then [] else c :: content_group r
  end.

(** One attempt of [/\[([^\]]+)\]\s*([\s\S]*?)(?=\n\n\[|$)/] anchored at the
    head of [s]: the two groups and the length of the whole match. *)
Definition match_at (s : jsstring) : option (jsstring * jsstring * nat) :=
  match s with
  | [] => None
  | c :: r =>
      if N.eqb c LBRACKET then
        match title_group r with
        | Some (t, after) =>
            match t with
            | [] => None
            | _ :: _ =>
                let (nws, body) := skip_space after in
                let c2 := content_group body in
                Some (t, c2, (1 + List.length t + 1 + nws + List.length c2)%nat)
            end
        | None => None
        end
      else None
  end.

(** The [while ((match = regex.exec(text)) !== null)] loop of a global
    expression. [skip] is the distance from the current position to
    [regex.lastIndex]: positions inside the previous match are passed over,
    then every position is tried in turn. *)
Fixpoint exec_all (skip : nat) (s : jsstring) : list Section :=
  match s with
  | [] => []
  | _ :: r =>
      match skip with
      | S k => exec_all k r
      | O =>
          match match_at s with
          | Some (t, c, len) => mkSection (trim t) (trim c) :: exec_all (len - 1) r
          | None => exec_all O r
          end
      end
  end.

Definition isTask (s : Section) : bool := str_eqb (title s) (lit "Task").

Definition isConstraints (s : Section) : bool :=
  str_eqb (title s) (lit "Constraints")
  || str_eqb (title s) (lit "STANDING CONSTRAINTS").

Definition isRefined (s : Section) : bool :=
  startsWith (lit "Refined Answer") (title s).

(** [`**${section.title}**\n`] preceded by ['\n\n'] *)
Definition sub_heading (s : Section) : jsstring :=
  [LF; LF] ++ lit "**" ++ title s ++ lit "**" ++ [LF].

(** The body of [sections.forEach(section => ...)]. The [constraints]
    object is created fresh on the first occurrence, so appending to its
    content changes no parsed section. *)
Definition chain_step (cd : ChainData) (s : Section) : ChainData :=
  if isTask s then mkChainData (Some s) (constraints cd) (refinedAnswers cd)
  else if isConstraints s then
    match constraints cd with
    | Some c =>
        mkChainData (task cd)
          (Some (mkSection (title c) (content c ++ sub_heading s ++ content s)))
          (refinedAnswers cd)
    | None =>
        mkChainData (task cd)
          (Some (mkSection (lit "Constraints") (content s)))
          (refinedAnswers cd)
    end
  else if isRefined s then
    mkChainData (task cd) (constraints cd) (refinedAnswers cd ++ [s])
  else cd.

Definition emptyChain : ChainData := mkChainData None None [].

Definition decompose (sections : list Section) : ChainData :=
  fold_left chain_step sections emptyChain.

Definition responseSection (text : jsstring) : Section :=
  mkSection (lit "Response") text.

(** A string is truthy when it is not empty. *)
Definition truthy (s : jsstring) : bool :=
  match s with [] => false | _ :: _ => true end.

Definition parseResponse (text : jsstring) : ParsedResponse :=
  if negb (has_bracket_tag text) && truthy (trim text) then
    mkParsed false (Flat [responseSection text])
  else
    let sections := exec_all O text in
    if (Nat.eqb (List.length sections) 0) && truthy (trim text) then
      mkParsed false (Flat [responseSection text])
    else
      let chainMode := existsb isRefined sections in
      if negb chainMode then mkParsed false (Flat sections)
      else mkParsed true (Chain (decompose sections)).

(** ** Data model (index.tsx lines 82-122) *)

Inductive Author := user | ai.

Record Citation := mkCitation { uri : jsstring; cite_title : jsstring }.

Record Translation := mkTranslation { lang : jsstring; tr_content : jsstring }.

Record AttachmentInfo := mkAttachmentInfo {
  att_name : jsstring;
  att_preview : jsstring;
  att_type : jsstring;
  att_size : N
}.

Record Message := mkMessage {
  msg_id : Z;
  author : Author;
  msg_content : jsstring;
  citations : option (list Citation);
  translation : option Translation;
  isTranslating : option bool;
  attachment : option AttachmentInfo;
  parsedData : option ParsedResponse
}.

(** One element of [parts: any[]] as the handlers build them. *)
Inductive Part :=
| TextPart (text : jsstring)
| InlineData (mimeType : jsstring) (b64 : jsstring).

Record HistoryEntry := mkEntry { role : jsstring; parts : list Part }.

Record Session := mkSession {
  id : jsstring;
  name : jsstring;
  messages : list Message;
  chatHistory : list HistoryEntry;
  createdAt : Z
}.

Inductive Stage :=
| initializing | awaiting_task | processing | awaiting_critique | error.

(** The file picked by the user: [{ file: File; preview: string }]. *)
Record Attachment := mkAttachment {
  file_name : jsstring;
  file_type : jsstring;
  file_size : N;
  preview : jsstring
}.

(** [Record<string, string>], with its keys in insertion order. *)
Definition SourceCode := list (jsstring * jsstring).

(** The state held by the [App] component ([useState], lines 707-723). *)
Record App := mkApp {
  aiReady : bool;                       (* ai !== null *)
  chatReady : bool;                     (* chat !== null *)
  stage : Stage;
  isLoading : bool;
  userInput : jsstring;
  critique : jsstring;
  pending : option Attachment;          (* attachment *)
  chainMode : bool;                     (* isChainMode *)
  sourceCode : option SourceCode;
  standingConstraints : list jsstring;
  isSessionsModalOpen : bool;
  sessions : list Session;
  activeSessionId : jsstring
}.

(** The browser objects the handlers touch: the two [localStorage] keys and
    [window.location.reload()]. *)
Record Browser := mkBrowser {
  zero_sessions : option jsstring;
  zero_active_session_id : option jsstring;
  reloaded : bool
}.

Definition setSessions (f : list Session -> list Session) (st : App) : App :=
  mkApp (aiReady st) (chatReady st) (stage st) (isLoading st) (userInput st)
    (critique st) (pending st) (chainMode st) (sourceCode st)
    (standingConstraints st) (isSessionsModalOpen st) (f (sessions st))
    (activeSessionId st).

Definition setActiveSessionId (a : jsstring) (st : App) : App :=
  mkApp (aiReady st) (chatReady st) (stage st) (isLoading st) (userInput st)
    (critique st) (pending st) (chainMode st) (sourceCode st)
    (standingConstraints st) (isSessionsModalOpen st) (sessions st) a.

Definition setStage (s : Stage) (st : App) : App :=
  mkApp (aiReady st) (chatReady st) s (isLoading st) (userInput st)
    (critique st) (pending st) (chainMode st) (sourceCode st)
    (standingConstraints st) (isSessionsModalOpen st) (sessions st)
    (activeSessionId st).

Definition setIsLoading (b : bool) (st : App) : App :=
  mkApp (aiReady st) (chatReady st) (stage st) b (userInput st)
    (critique st) (pending st) (chainMode st) (sourceCode st)
    (standingConstraints st) (isSessionsModalOpen st) (sessions st)
    (activeSessionId st).

(** [setUserInput(''); setCritique(''); setAttachment(null)] *)
Definition clearInputs (st : App) : App :=
  mkApp (aiReady st) (chatReady st) (stage st) (isLoading st) [] [] None
    (chainMode st) (sourceCode st) (standingConstraints st)
    (isSessionsModalOpen st) (sessions st) (activeSessionId st).

Definition setSourceCode (sc : SourceCode) (st : App) : App :=
  mkApp (aiReady st) (chatReady st) (stage st) (isLoading st) (userInput st)
    (critique st) (pending st) (chainMode st) (Some sc)
    (standingConstraints st) (isSessionsModalOpen st) (sessions st)
    (activeSessionId st).

Definition setAi (st : App) : App :=
  mkApp true (chatReady st) (stage st) (isLoading st) (userInput st)
    (critique st) (pending st) (chainMode st) (sourceCode st)
    (standingConstraints st) (isSessionsModalOpen st) (sessions st)
    (activeSessionId st).

(** [sessions.find(s => s.id === activeSessionId)] *)
Definition activeSession (st : App) : option Session :=
  find (fun s => str_eqb (id s) (activeSessionId st)) (sessions st).

(** ** Session manager ([SessionsModal], lines 410-507) *)

(** [sessions.sort((a,b) => b.createdAt - a.createdAt)]: the array is
    sorted in place, newest first. [Array.prototype.sort] is stable, and
    the stably sorted arrangement of a list is unique, so an insertion sort
    that keeps ties in their order denotes it. [sort_insert x l] puts [x],
    which stood in front of every element of [l], in front of the first
    element that is not newer than [x]. *)
Fixpoint sort_insert (x : Session) (l : list Session) : list Session :=
  match l with
  | [] => [x]
  | y :: l' =>
      if (createdAt y <=? createdAt x)%Z then x :: y :: l'
      else y :: sort_insert x l'
  end.

Definition sort_newest_first (l : list Session) : list Session :=
  fold_right sort_insert [] l.

(** Rendering the open modal. It receives the state array itself as its
    [sessions] prop (line 1248) and sorts it in place (line 479): the array
    held by the [App] state is rearranged, not a copy. The closed modal
    returns [null] before touching it. *)
Definition renderSessionsModal (st : App) : App :=
  if isSessionsModalOpen st then setSessions sort_newest_first st else st.

(** ** [handleDeleteSession] (lines 1071-1086) *)

Definition handleDeleteSession (sessionId : jsstring) (w : App * Browser)
  : App * Browser :=
  let (st, br) := w in
  let remaining :=
    filter (fun s => negb (str_eqb (id s) sessionId)) (sessions st) in
  match remaining with
  | [] =>
      (setSessions (fun _ => []) st, mkBrowser None None true)
  | first :: _ =>
      let st1 :=
        if str_eqb sessionId (activeSessionId st)
        then setActiveSessionId (id first) st else st in
      (setSessions (fun _ => remaining) st1, br)
  end.

(** The delete button exists only in the rendered list of the open modal
    (line 496), so a click on it acts on the array as that rendering left
    it. *)
Definition clickDelete (sessionId : jsstring) (w : App * Browser)
  : App * Browser :=
  handleDeleteSession sessionId (renderSessionsModal (fst w), snd w).

(** ** Meta-question detection and source redaction (lines 865-889) *)

(** Canonicalisation under the [i] flag (no [u] flag): a code unit is
    compared through its upper-case form, and a non-ASCII unit is never
    canonicalised to an ASCII one, so against the ASCII phrases below only
    the two cases of a letter match. *)
Definition canonicalize (c : N) : N :=
  if ((97 <=? c) && (c <=? 122))%N then (c - 32)%N else c.

Fixpoint startsWith_ci (p s : jsstring) : bool :=
  match p, s with
  | [], _ => true
  | x :: p', y :: s' =>
      N.eqb (canonicalize x) (canonicalize y) && startsWith_ci p' s'
  | _ :: _, [] => false
  end.

Fixpoint includes_ci (p s : jsstring) : bool :=
  startsWith_ci p s ||
  match s with
  | [] => false
  | _ :: s' => includes_ci p s'
  end.

Definition metaPhrases : list jsstring :=
  map lit
    [ "what is this app"; "explain your code"; "how do you work";
      "your purpose"; "your features"; "your source code"; "who are you";
      "what are you"; "self check"; "analyze your code"; "improve the app";
      "make it better" ]%string.

Definition isAwaitingTask (s : Stage) : bool :=
  match s with awaiting_task => true | _ => false end.

Definition isAwaitingCritique (s : Stage) : bool :=
  match s with awaiting_critique => true | _ => false end.

(** [stage === 'awaiting_task' && /what is this app|.../i.test(text)] *)
Definition isMetaQuestion (s : Stage) (text : jsstring) : bool :=
  isAwaitingTask s && existsb (fun p => includes_ci p text) metaPhrases.

Definition QUOTE : N := 34%N.

Definition OPEN : jsstring := lit "const MASTER_PROMPT = `".
Definition CLOSE : jsstring := lit "`;".

(** ['const MASTER_PROMPT = "[REDACTED FOR SELF-ANALYSIS]";'] (it holds no
    [$], so [replace] inserts it as it is). *)
Definition MARK : jsstring :=
  lit "const MASTER_PROMPT = " ++ [QUOTE] ++ lit "[REDACTED FOR SELF-ANALYSIS]"
  ++ [QUOTE] ++ lit ";".

(** [[\s\S]*?`;] after the opening: what follows the first [CLOSE]. *)
Fixpoint after_close (s : jsstring) : option jsstring :=
  match s with
  | [] => None
  | _ :: r => if startsWith CLOSE s then Some (skipn 2 s) else after_close r
  end.

(** [src.replace(/const MASTER_PROMPT = `[\s\S]*?`;/, MARK)]: the leftmost
    match only (the expression is not global). *)
Fixpoint redact (s : jsstring) : jsstring :=
  match s with
  | [] => []
  | c :: r =>
      if startsWith OPEN s then
        match after_close (skipn (List.length OPEN) s) with
        | Some rest => MARK ++ rest
        | None => c :: redact r
        end
      else c :: redact r
  end.

(** *** [btoa(unescape(encodeURIComponent(content)))] *)

Definition isHighSurrogate (c : N) : bool := ((55296 <=? c) && (c <? 56320))%N.
Definition isLowSurrogate (c : N) : bool := ((56320 <=? c) && (c <? 57344))%N.

(** The UTF-8 octets of one code point. *)
Definition utf8_octets (k : N) : list N :=
  (if k <? 128 then [k]
   else if k <? 2048 then [192 + k / 64; 128 + k mod 64]
   else if k <? 65536 then
     [224 + k / 4096; 128 + (k / 64) mod 64; 128 + k mod 64]
   else
     [240 + k / 262144; 128 + (k / 4096) mod 64; 128 + (k / 64) mod 64;
      128 + k mod 64])%N.

(** [unescape(encodeURIComponent(s))]: the string whose code units are the
    UTF-8 octets of [s]. [encodeURIComponent] throws a [URIError] on a lone
    surrogate: [None]. *)
Fixpoint utf8 (s : jsstring) : option (list N) :=
  match s with
  | [] => Some []
  | c :: r =>
      if isHighSurrogate c then
        match r with
        | d :: r' =>
            if isLowSurrogate d then
              match utf8 r' with
              | Some t =>
                  Some (utf8_octets
                          (65536 + (c - 55296) * 1024 + (d - 56320))%N ++ t)
              | None => None
              end
            else None
        | [] => None
        end
      else if isLowSurrogate c then None
      else if (65536 <=? c)%N then None
      else match utf8 r with
           | Some t => Some (utf8_octets c ++ t)
           | None => None
           end
  end.

(** The Base64 alphabet. *)
Definition b64char (n : N) : N :=
  (if n <? 26 then 65 + n
   else if n <? 52 then 97 + (n - 26)
   else if n <? 62 then 48 + (n - 52)
   else if n =? 62 then 43 else 47)%N.

Definition PAD : N := 61%N.

Fixpoint base64 (octets : list N) : jsstring :=
  match octets with
  | [] => []
  | [a] => [b64char (a / 4); b64char ((a mod 4) * 16); PAD; PAD]%N
  | [a; b] =>
      [b64char (a / 4); b64char ((a mod 4) * 16 + b / 16);
       b64char ((b mod 16) * 4); PAD]%N
  | a :: b :: c :: r =>
      ([b64char (a / 4); b64char ((a mod 4) * 16 + b / 16);
        b64char ((b mod 16) * 4 + c / 64); b64char (c mod 64)]%N)
      ++ base64 r
  end.

(** [btoa(s)]: an [InvalidCharacterError] when a code unit exceeds 255. *)
Definition btoa (s : jsstring) : option jsstring :=
  if forallb (fun c => (c <? 256)%N) s then Some (base64 s) else None.

Definition encodeContent (content : jsstring) : option jsstring :=
  match utf8 content with
  | Some octets => btoa octets
  | None => None
  end.

(** *** The reader's side: decoding, as the prompt asks the model to do *)

Definition b64val (c : N) : option N :=
  (if (65 <=? c) && (c <=? 90) then Some (c - 65)
   else if (97 <=? c) && (c <=? 122) then Some (c - 97 + 26)
   else if (48 <=? c) && (c <=? 57) then Some (c - 48 + 52)
   else if c =? 43 then Some 62
   else if c =? 47 then Some 63
   else None)%N.

Fixpoint atob (s : jsstring) : option (list N) :=
  match s with
  | [] => Some []
  | c1 :: c2 :: c3 :: c4 :: r =>
      match b64val c1, b64val c2 with
      | Some s1, Some s2 =>
          if N.eqb c3 PAD && N.eqb c4 PAD then
            match r with [] => Some [s1 * 4 + s2 / 16]%N | _ => None end
          else
            match b64val c3 with
            | Some s3 =>
                if N.eqb c4 PAD then
                  match r with
                  | [] => Some [s1 * 4 + s2 / 16; (s2 mod 16) * 16 + s3 / 4]%N
                  | _ => None
                  end
                else
                  match b64val c4, atob r with
                  | Some s4, Some t =>
                      Some ([s1 * 4 + s2 / 16; (s2 mod 16) * 16 + s3 / 4;
                             (s3 mod 4) * 64 + s4]%N ++ t)
                  | _, _ => None
                  end
            | None => None
            end
      | _, _ => None
      end
  | _ => None
  end.

(** The UTF-16 code units of one code point. *)
Definition code_units (k : N) : jsstring :=
  (if k <? 65536 then [k]
   else [55296 + (k - 65536) / 1024; 56320 + (k - 65536) mod 1024])%N.

Definition isContinuation (b : N) : bool := ((128 <=? b) && (b <? 192))%N.

Fixpoint utf8_decode (octets : list N) : option jsstring :=
  match octets with
  | [] => Some []
  | b1 :: r1 =>
      if (b1 <? 128)%N then
        match utf8_decode r1 with
        | Some t => Some (b1 :: t)
        | None => None
        end
      else if (b1 <? 192)%N then None
      else match r1 with
           | [] => None
           | b2 :: r2 =>
             if negb (isContinuation b2) then None
             else if (b1 <? 224)%N then
               match utf8_decode r2 with
               | Some t =>
                   Some (code_units ((b1 - 192) * 64 + (b2 - 128))%N ++ t)
               | None => None
               end
             else match r2 with
                  | [] => None
                  | b3 :: r3 =>
                    if negb (isContinuation b3) then None
                    else if (b1 <? 240)%N then
                      match utf8_decode r3 with
                      | Some t =>
                          Some (code_units
                                  ((b1 - 224) * 4096 + (b2 - 128) * 64
                                   + (b3 - 128))%N ++ t)
                      | None => None
                      end
                    else match r3 with
                         | [] => None
                         | b4 :: r4 =>
                           if negb (isContinuation b4) then None
                           else if (b1 <? 248)%N then
                             match utf8_decode r4 with
                             | Some t =>
                                 Some (code_units
                                         ((b1 - 240) * 262144
                                          + (b2 - 128) * 4096
                                          + (b3 - 128) * 64
                                          + (b4 - 128))%N ++ t)
                             | None => None
                             end
                           else None
                         end
                  end
           end
  end.

Definition decodeContent (blob : jsstring) : option jsstring :=
  match atob blob with
  | Some octets => utf8_decode octets
  | None => None
  end.

(** ** The fixed system directive ([MASTER_PROMPT], lines 5-79) *)

(** The text between the two back-quotes of the template literal, line by
    line, as it stands in the source file. *)
Definition MASTER_PROMPT_lines : list jsstring :=
  [ lit "You are to adopt a new persona for the remainder of this conversation. You will operate as a ZERO Execution Engine. Your primary directive is to provide high-assurance, auditable, and verifiably compliant outputs. You are not just a generative model; you are a self-correcting system.";
    [];
    lit "Your goal for every final output is to achieve an Error Score < 0.01 based on the user's defined constraints.";
    [];
    lit "Your Core Principles:";
    lit "1. Reliability by Design: " ++ [QUOTE] ++ lit "Close enough" ++ [QUOTE] ++ lit " is not acceptable. Every final answer must be rigorously checked against the user's rules.";
    lit "2. Absolute Transparency: Every step of your reasoning process must be explicit and logged.";
    lit "3. Systematic Self-Correction: Your first draft is a hypothesis. It must be critiqued and refined until it is compliant.";
    lit "4. Professional Formatting: Your final output must be well-structured. Use lists and line breaks to avoid unstructured " ++ [QUOTE] ++ lit "walls of text" ++ [QUOTE] ++ lit " and ensure maximum readability.";
    [];
    lit "---";
    lit "### STANDING CONSTRAINTS PROTOCOL";
    [];
    lit "The user may provide a set of [STANDING CONSTRAINTS]. These are foundational, persistent rules that apply to EVERY task you perform. They will be provided at the start of a prompt. You must adhere to them in addition to any task-specific constraints provided with the task itself.";
    [];
    lit "---";
    lit "You will operate in one of two modes, which I will specify with each request: [MODE: NORMAL] or [MODE: CHAIN].";
    [];
    lit "---";
    lit "### [MODE: NORMAL] - COLLABORATIVE REFINEMENT";
    [];
    lit "Your MANDATORY Workflow for this mode:";
    lit "You will follow this five-step process for EVERY [MODE: NORMAL] request. Do not deviate.";
    [];
    lit "1. Acknowledge Task & Constraints: I will provide my request. You must intelligently parse this message to distinguish the core task from the constraints you must follow. Your response MUST begin by explicitly restating the identified [Task], any active [STANDING CONSTRAINTS], and the task-specific [Constraints] for my verification.";
    lit "2. State Confidence (C4 Score): You will then analyze my request and predict the probability of your first draft being perfectly compliant. You will state this as a [C4 Score] from 0.00 to 1.00, with a brief justification.";
    lit "3. Generate the Draft: You will generate your first attempt to complete the task. You MUST label this clearly with [Draft].";
    lit "4. Await Critique: After providing the draft, you will STOP. You will not proceed further until I provide a critique. My critique will either be a list of corrections or a simple command: " ++ [QUOTE] ++ lit "Proceed." ++ [QUOTE] ++ [];
    lit "5. Generate Final Output & Log: After my critique, you will generate the final, corrected answer. You MUST label this [Final Output]. You will then provide a final [Error Score] (which should be < 0.01) and a brief [ZEROSession Log] summarizing the interaction.";
    [];
    lit "---";
    lit "### [MODE: CHAIN] - AUTONOMOUS REFINEMENT";
    [];
    lit "Your MANDATORY Workflow for this mode:";
    lit "For EVERY [MODE: CHAIN] request, you will perform a 5-cycle autonomous self-correction loop IN A SINGLE RESPONSE. Do not stop and wait for my input.";
    [];
    lit "1. Acknowledge Task & Constraints: Just as in Normal Mode, begin by explicitly restating the identified [Task], any active [STANDING CONSTRAINTS], and the task-specific [Constraints].";
    lit "2. Iterative Refinement Loop (5 Cycles): You will then immediately begin the loop. You will produce five distinct, complete answers. Each answer must be a direct improvement on the previous one. Each answer MUST be enclosed in its own labeled section, following this format precisely:";
    lit "    * **[Refined Answer 1/5]:** The first complete answer.";
    lit "    * **[Refined Answer 2/5]:** An improved version of the first answer.";
    lit "    * **[Refined Answer 3/5]:** An improved version of the second answer.";
    lit "    * **[Refined Answer 4/5]:** An improved version of the third answer.";
    lit "    * **[Refined Answer 5/5]:** The final and most polished version of the answer, representing your best possible output after all self-correction.";
    lit "There will be no separate [Final Output] section in this mode; the fifth refined answer serves as the final output.";
    [];
    lit "---";
    lit "### SELF-AWARENESS PROTOCOL";
    [];
    lit "If the user's query is a meta-question about you (the ZERO Execution Engine), this application, its capabilities, or its source code, the application will provide you with the Base64 encoded source code of all relevant files prepended to the user's prompt. Your task is to decode this content and then provide a comprehensive, accurate answer based *only* on the decoded source code. The MASTER_PROMPT itself has been redacted from the provided code and is not available for your analysis.";
    [];
    lit "When answering meta-questions under this protocol:";
    lit "1.  **Decode the provided Base64 file contents before analysis.**";
    lit "2.  **You MUST format your entire response using the application's section-based syntax.** Each part of your answer must be enclosed in a labeled section, like \\\`[Section Title]\\\`. This is the ONLY format you should use for the response. Do not use markdown like '###'.";
    lit "3.  Start with an \\\`[Acknowledgement]\\\` section, stating you are operating under this protocol and have decoded the files.";
    lit "4.  For the main body of your answer, break it down into logical sections based on the user's query. For example, if the user asks " ++ [QUOTE] ++ lit "What is this app and what does Chain Mode do?" ++ [QUOTE] ++ lit ", you should create two sections: \\\`[What This App Is]\\\` and \\\`[Chain Mode Functionality]\\\`.";
    lit "5.  Directly reference the provided source code files (e.g., " ++ [QUOTE] ++ lit "In \\\`index.tsx\\\`, the \\\`App\\\` component is responsible for..." ++ [QUOTE] ++ lit ") to support your analysis.";
    lit "6.  Explain the functionality in a clear, structured manner. Behave as if you are the application explaining itself.";
    lit "7.  Within each section, use clear paragraphs and lists (bulleted or numbered) to present information.";
    lit "8.  Do not use the NORMAL or CHAIN mode workflows. Provide a direct, factual answer based on the code.";
    lit "---";
    [];
    lit "How to Interact With Me (The User):";
    lit "I will provide my request in natural language, and the application will prepend it with the current mode and any standing constraints.";
    lit "Example for Normal Mode: " ++ [QUOTE] ++ lit "[STANDING CONSTRAINTS]\n- The poem must be suitable for children.\n\n[MODE: NORMAL] Write a short poem about the moon. The poem must be exactly four lines long and must not contain the word 'silver'." ++ [QUOTE] ++ [];
    lit "From this, you would identify and must restate:";
    lit "[Task]";
    lit "Write a short poem about the moon.";
    lit "[STANDING CONSTRAINTS]";
    lit "1. The poem must be suitable for children.";
    lit "[Constraints]";
    lit "1. The poem must be exactly four lines long.";
    lit "2. The poem must not contain the word 'silver'.";
    [];
    lit "Acknowledge these instructions by responding with: " ++ [QUOTE] ++ lit "ZERO Execution Engine initialized. Awaiting your first task." ++ [QUOTE] ++ lit " Do not say anything else." ].

Definition MASTER_PROMPT_source : jsstring :=
  join [LF] MASTER_PROMPT_lines ++ [LF].

(** The value of a template literal without substitutions: the escapes
    that occur in the text are a back-slash followed by [n], by a back-slash
    or by a back-quote. *)
Fixpoint cook (s : jsstring) : jsstring :=
  match s with
  | [] => []
  | c :: r =>
      if N.eqb c 92 then
        match r with
        | e :: r' => (if N.eqb e 110 then LF else e) :: cook r'
        | [] => [c]
        end
      else c :: cook r
  end.

Definition MASTER_PROMPT : jsstring := cook MASTER_PROMPT_source.

(** ** Prompt composition (lines 865-897) *)

Fixpoint lookup (k : jsstring) (o : SourceCode) : option jsstring :=
  match o with
  | [] => None
  | (k', v) :: rest => if str_eqb k' k then Some v else lookup k rest
  end.

(** [o[k] = v] on a key that is present: the value changes, the key keeps
    its place in the enumeration order. *)
Fixpoint assign (k v : jsstring) (o : SourceCode) : SourceCode :=
  match o with
  | [] => [(k, v)]
  | (k', v') :: rest =>
      if str_eqb k' k then (k', v) :: rest else (k', v') :: assign k v rest
  end.

(** [`[FILE: ${fileName}]\n${encodedContent}`] for each entry; the first
    entry whose encoding throws ends the whole [map]. *)
Fixpoint encodeEntries (o : SourceCode) : option (list jsstring) :=
  match o with
  | [] => Some []
  | (fileName, fileContent) :: rest =>
      match encodeContent fileContent with
      | Some blob =>
          match encodeEntries rest with
          | Some t =>
              Some ((lit "[FILE: " ++ fileName ++ lit "]" ++ [LF] ++ blob) :: t)
          | None => None
          end
      | None => None
      end
  end.

Definition metaHeader : jsstring :=
  lit "[META-QUESTION DETECTED] I will now operate under the SELF-AWARENESS PROTOCOL."
  ++ [LF; LF]
  ++ lit "Here are my Base64 encoded source files for analysis. You must decode them before answering my question."
  ++ [LF; LF].

Definition metaFooter : jsstring :=
  [LF; LF] ++ lit "Based on the decoded source code, answer my question: ".

(** The copy of the source map with the directive redacted in
    [index.tsx]; reading [.replace] off a missing entry is a [TypeError]:
    [None]. *)
Definition redactedSourceCode (sc : SourceCode) : option SourceCode :=
  match lookup (lit "index.tsx") sc with
  | Some src => Some (assign (lit "index.tsx") (redact src) sc)
  | None => None
  end.

Definition metaPrompt (sc : SourceCode) (userMessageContent : jsstring)
  : option jsstring :=
  match redactedSourceCode sc with
  | Some red =>
      match encodeEntries red with
      | Some blobs =>
          Some (metaHeader ++ join [LF; LF] blobs ++ metaFooter
                ++ userMessageContent)
      | None => None
      end
  | None => None
  end.

Definition modePrefix (chain : bool) : jsstring :=
  (if chain then lit "[MODE: CHAIN]" else lit "[MODE: NORMAL]") ++ [LF].

Definition constraintsPrefix (cs : list jsstring) : jsstring :=
  match cs with
  | [] => []
  | _ :: _ =>
      lit "[STANDING CONSTRAINTS]" ++ [LF]
      ++ join [LF] (map (fun c => lit "- " ++ c) cs) ++ [LF; LF]
  end.

(** [finalPromptToServer]; [None] when building it throws. *)
Definition finalPromptToServer (st : App) (userMessageContent : jsstring)
  : option jsstring :=
  match isMetaQuestion (stage st) userMessageContent, sourceCode st with
  | true, Some sc => metaPrompt sc userMessageContent
  | _, _ =>
      Some (if isAwaitingCritique (stage st) then userMessageContent
            else constraintsPrefix (standingConstraints st)
                 ++ modePrefix (chainMode st) ++ userMessageContent)
  end.

(** ** One turn ([handleSendMessage], lines 846-1004) *)

Record Chunk := mkChunk {
  chunk_text : jsstring;
  (** [chunk.candidates?.[0]?.groundingMetadata?.groundingChunks], each
      element given by its [web] member *)
  groundingChunks : option (list (option Citation))
}.

(** What the outside world answers during one turn. *)
Record TurnEnv := mkTurnEnv {
  clock1 : Z;                           (* Date.now(), user message *)
  clock2 : Z;                           (* Date.now(), placeholder *)
  fileToBase64 : option jsstring;       (* None: the file reader rejects *)
  (** [None]: the call rejects. [(chunks, true)]: the stream yields the
      chunks and ends. [(chunks, false)]: it throws after them. *)
  sendMessageStream : option (list Chunk * bool)
}.

Definition withMessages (ms : list Message) (s : Session) : Session :=
  mkSession (id s) (name s) ms (chatHistory s) (createdAt s).

Definition withNameAndHistory (n : jsstring) (h : list HistoryEntry)
  (s : Session) : Session :=
  mkSession (id s) n (messages s) h (createdAt s).

Definition withName (n : jsstring) (s : Session) : Session :=
  mkSession (id s) n (messages s) (chatHistory s) (createdAt s).

(** [prev.map(s => s.id === activeSessionId ? f(s) : s)] *)
Definition onActive (activeId : jsstring) (f : Session -> Session)
  (prev : list Session) : list Session :=
  map (fun s => if str_eqb (id s) activeId then f s else s) prev.

Definition attachmentInfo (a : Attachment) : AttachmentInfo :=
  mkAttachmentInfo (file_name a) (preview a) (file_type a) (file_size a).

Definition userMessage (env : TurnEnv) (text : jsstring)
  (a : option Attachment) : Message :=
  mkMessage (clock1 env) user text None None None
    (option_map attachmentInfo a) None.

Definition aiMessagePlaceholder (env : TurnEnv) : Message :=
  mkMessage (clock2 env + 1)%Z ai [] (Some []) None None None None.

(** [const newMessages = [...s.messages];
     const lastMessage = newMessages[newMessages.length - 1];
     if (lastMessage.author === 'ai') { ... }].
    On an empty log [lastMessage] is [undefined] and reading its author
    raises; a turn never gets there, two messages having just been
    appended ([startTurn_messages] below). *)
Definition overwriteLast (f : Message -> Message) (ms : list Message)
  : list Message :=
  match rev ms with
  | [] => []
  | lastMessage :: before =>
      rev before ++
      [match author lastMessage with
       | ai => f lastMessage
       | user => lastMessage
       end]
  end.

Definition streamed (text : jsstring) (cs : list Citation)
  (m : Message) : Message :=
  mkMessage (msg_id m) (author m) text (Some cs) (translation m)
    (isTranslating m) (attachment m) (Some (parseResponse text)).

Definition withContent (text : jsstring) (m : Message) : Message :=
  mkMessage (msg_id m) (author m) text (citations m) (translation m)
    (isTranslating m) (attachment m) (parsedData m).

Definition errorText : jsstring :=
  lit "[Error]" ++ [LF] ++
  lit "An unexpected error occurred while processing your request. Please try again. If the issue continues, please simplify your prompt or check the developer console for technical details.".

(** [newChunks.map(c => c.web).filter(c => c && c.uri && c.title)] *)
Fixpoint keepCitations (l : list (option Citation)) : list Citation :=
  match l with
  | [] => []
  | Some c :: r =>
      if truthy (uri c) && truthy (cite_title c) then c :: keepCitations r
      else keepCitations r
  | None :: r => keepCitations r
  end.

(** What a turn fixes before the model is called. *)
Record Turn := mkTurn {
  turn_text : jsstring;                 (* userMessageContent *)
  turn_meta : bool;                     (* isMetaQuestion *)
  turn_prompt : jsstring;               (* finalPromptToServer *)
  turn_attachment : option Attachment;  (* currentAttachment *)
  turn_session : jsstring;              (* activeSessionId *)
  turn_chain : bool                     (* isChainMode *)
}.

(** The progress of the [for await] loop. *)
Record Progress := mkProgress {
  fullResponseText : jsstring;
  liveCitations : list Citation;
  during : App
}.

(** One iteration of [for await (const chunk of result)]. *)
Definition onChunk (t : Turn) (p : Progress) (ch : Chunk) : Progress :=
  let full := fullResponseText p ++ chunk_text ch in
  let cs := match groundingChunks ch with
            | Some l => keepCitations l
            | None => liveCitations p
            end in
  mkProgress full cs
    (setSessions
       (onActive (turn_session t)
          (fun s => withMessages (overwriteLast (streamed full cs) (messages s)) s))
       (during p)).

Definition streamLoop (t : Turn) (chunks : list Chunk) (p : Progress)
  : Progress :=
  fold_left (onChunk t) chunks p.

Definition isUser (m : Message) : bool :=
  match author m with user => true | ai => false end.

(** The update after the loop (lines 964-977) and the stage chosen at
    lines 979-985. *)
Definition completedStage (t : Turn) (full : jsstring) : Stage :=
  if turn_meta t then awaiting_task
  else if negb (turn_chain t) && includes (lit "[Draft]") full
          && negb (includes (lit "[Final Output]") full)
       then awaiting_critique
       else awaiting_task.

Definition onComplete (t : Turn) (userPartsForHistory : list Part)
  (p : Progress) : App :=
  let full := fullResponseText p in
  setStage (completedStage t full)
    (setSessions
       (onActive (turn_session t)
          (fun s =>
             let shouldRename :=
               Nat.eqb (List.length (filter isUser (messages s))) 1
               && str_eqb (name s) (lit "New Session") in
             let newName :=
               if shouldRename then substring0 50 (turn_text t) else name s in
             withNameAndHistory newName
               (chatHistory s ++
                [mkEntry (lit "user") userPartsForHistory;
                 mkEntry (lit "model") [TextPart full]])
               s))
       (during p)).

(** The [catch] block (lines 986-998). *)
Definition onError (t : Turn) (st : App) : App :=
  setStage awaiting_task
    (setSessions
       (onActive (turn_session t)
          (fun s => withMessages (overwriteLast (withContent errorText) (messages s)) s))
       st).

(** The [try] block with its [catch]: the resulting state and the number
    of calls of [chat.sendMessageStream] it made. *)
Definition tryBlock (t : Turn) (env : TurnEnv) (st : App) : App * nat :=
  let userPartsForHistory :=
    match turn_attachment t with
    | Some a =>
        match fileToBase64 env with
        | Some b64data =>
            Some [TextPart (turn_prompt t); InlineData (file_type a) b64data]
        | None => None
        end
    | None => Some [TextPart (turn_prompt t)]
    end in
  match userPartsForHistory with
  | None => (onError t st, O)
  | Some userParts =>
      match sendMessageStream env with
      | None => (onError t st, 1%nat)
      | Some (chunks, ended) =>
          let p := streamLoop t chunks (mkProgress [] [] st) in
          if ended then (onComplete t userParts p, 1%nat)
          else (onError t (during p), 1%nat)
      end
  end.

(** The guards at the head of the handler: the text of the turn when it
    is accepted. *)
Definition acceptedText (st : App) : option jsstring :=
  if isLoading st || negb (chatReady st) then None
  else match activeSession st with
       | None => None
       | Some _ =>
           let text :=
             match stage st with
             | awaiting_task => Some (userInput st)
             | awaiting_critique => Some (critique st)
             | _ => None
             end in
           match text with
           | None => None
           | Some userMessageContent =>
               match trim userMessageContent, pending st with
               | [], None => None
               | _, _ => Some userMessageContent
               end
           end
       end.

(** The handler up to the [try]: [setIsLoading(true)],
    [setStage('processing')], the prompt, the two appended messages and the
    cleared inputs. *)
Inductive Started :=
| NotAccepted
| PromptThrew (st : App)
| InFlight (t : Turn) (st : App).

Definition startTurn (st : App) (env : TurnEnv) : Started :=
  match acceptedText st with
  | None => NotAccepted
  | Some text =>
      let st1 := setStage processing (setIsLoading true st) in
      match finalPromptToServer st text with
      | None => PromptThrew st1
      | Some prompt =>
          let t := mkTurn text (isMetaQuestion (stage st) text) prompt
                     (pending st) (activeSessionId st) (chainMode st) in
          InFlight t
            (clearInputs
               (setSessions
                  (onActive (activeSessionId st)
                     (fun s =>
                        withMessages
                          (messages s ++
                           [userMessage env text (pending st);
                            aiMessagePlaceholder env]) s))
                  st1))
      end
  end.

(** How a call of the handler ends. *)
Inductive Outcome :=
| Ignored (st : App)                (* an early [return]: nothing changed *)
| Escaped (st : App)                (* an exception left the handler *)
| Settled (st : App) (calls : nat). (* [try]/[catch]/[finally] ran *)

Definition handleSendMessage (st : App) (env : TurnEnv) : Outcome :=
  match startTurn st env with
  | NotAccepted => Ignored st
  | PromptThrew st1 => Escaped st1
  | InFlight t st2 =>
      let (st3, calls) := tryBlock t env st2 in
      Settled (setIsLoading false st3) calls
  end.

(** The state as it stands after the first [k] chunks of the stream have
    been applied, for a turn in flight. *)
Definition midStream (t : Turn) (chunks : list Chunk) (k : nat) (st : App)
  : App :=
  during (streamLoop t (firstn k chunks) (mkProgress [] [] st)).

(** ** Start-up ([createNewSession] and [initApp], lines 733-812) *)

(** [String(n)] for an integer-valued number. *)
Definition decimal (z : Z) : jsstring :=
  lit (DecimalString.NilZero.string_of_int (Z.to_int z)).

(** What the outside world answers during start-up. *)
Record InitEnv := mkInitEnv {
  (** [(await fetch(file)).text()]; [None]: the request rejects *)
  fetchText : jsstring -> option jsstring;
  (** whether [new GoogleGenAI(...)] returns *)
  genAI : bool;
  (** [response.text] of the directive exchange; [None]: the call rejects *)
  sendMessage : option jsstring;
  initClock1 : Z;                       (* Date.now(), session id *)
  initClock2 : Z;                       (* Date.now(), createdAt *)
  errorClock : Z                        (* Date.now(), error session *)
}.

Definition filesToFetch : list jsstring :=
  map lit ["index.tsx"; "index.css"; "index.html"; "metadata.json"]%string.

(** The [for (const file of filesToFetch)] loop: the first request that
    rejects ends it. *)
Fixpoint fetchAll (fetch : jsstring -> option jsstring)
  (files : list jsstring) : option SourceCode :=
  match files with
  | [] => Some []
  | file :: rest =>
      match fetch file with
      | None => None
      | Some text =>
          match fetchAll fetch rest with
          | Some o => Some ((file, text) :: o)
          | None => None
          end
      end
  end.

Definition newSession (response : jsstring) (c1 c2 : Z) : Session :=
  mkSession (lit "session_" ++ decimal c1) (lit "New Session")
    [mkMessage 1 ai response None None None None
       (Some (parseResponse response))]
    [mkEntry (lit "user") [TextPart MASTER_PROMPT];
     mkEntry (lit "model") [TextPart response]]
    c2.

Definition errorSession (c : Z) : Session :=
  mkSession (lit "error_session") (lit "Error")
    [mkMessage 1 ai
       (lit "Error: Could not initialize the ZERO Engine. Please check your API key and refresh the page.")
       None None None None None]
    [] c.

(** How a [try] block ends, with the state reached. *)
Inductive Tried :=
| Completed (st : App)
| Threw (st : App).

(** The two saved values when both are present and not empty
    ([if (savedSessions && savedActiveId)]). *)
Definition savedRecord (br : Browser) : option (jsstring * jsstring) :=
  match zero_sessions br, zero_active_session_id br with
  | Some savedSessions, Some savedActiveId =>
      if truthy savedSessions && truthy savedActiveId
      then Some (savedSessions, savedActiveId) else None
  | _, _ => None
  end.

Section Startup.

(** [JSON.parse] read at the type of the session collection; [None]
    when it throws a [SyntaxError]. *)
Variable JSON_parse : jsstring -> option (list Session).
Variable JSON_stringify : list Session -> jsstring.

(** [createNewSession] followed by [setActiveSessionId(newSessionId)]. *)
Definition createAndActivate (env : InitEnv) (st : App) : Tried :=
  match sendMessage env with
  | None => Threw st
  | Some response =>
      let s := newSession response (initClock1 env) (initClock2 env) in
      Completed
        (setActiveSessionId (id s) (setSessions (fun prev => prev ++ [s]) st))
  end.

Definition initTry (env : InitEnv) (br : Browser) (st : App) : Tried :=
  match fetchAll (fetchText env) filesToFetch with
  | None => Threw st
  | Some fetchedSources =>
      let st1 := setSourceCode fetchedSources st in
      if negb (genAI env) then Threw st1
      else
        let st2 := setAi st1 in
        let loaded :=
          match savedRecord br with
          | Some (savedSessions, savedActiveId) =>
              match JSON_parse savedSessions with
              | Some ss =>
                  Completed
                    (setActiveSessionId savedActiveId
                       (setSessions (fun _ => ss) st2))
              | None => Threw st2
              end
          | None => createAndActivate env st2
          end in
        match loaded with
        | Completed st3 => Completed (setStage awaiting_task st3)
        | Threw st3 => Threw st3
        end
  end.

(** [initApp]: [localStorage] is only read. *)
Definition initApp (env : InitEnv) (w : App * Browser) : App * Browser :=
  let (st, br) := w in
  let st' :=
    match initTry env br st with
    | Completed st1 => st1
    | Threw st1 =>
        let e := errorSession (errorClock env) in
        setStage error
          (setActiveSessionId (id e) (setSessions (fun _ => [e]) st1))
    end in
  (setIsLoading false st', br).

(** The saving effect (lines 814-820), run after a state change. *)
Definition saveSessions (w : App * Browser) : App * Browser :=
  let (st, br) := w in
  match sessions st with
  | _ :: _ =>
      if truthy (activeSessionId st) then
        (st, mkBrowser (Some (JSON_stringify (sessions st)))
               (Some (activeSessionId st)) (reloaded br))
      else w
  | [] => w
  end.

(** *** The other copy of the application (second [index.tsx])

    Its [loadSessions] (in [useSessionPersistence]) wraps the same read
    in a [try]/[catch] that removes both keys. *)
Definition loadSessions_v2 (w : App * Browser) : bool * (App * Browser) :=
  let (st, br) := w in
  match savedRecord br with
  | Some (savedSessions, savedActiveId) =>
      match JSON_parse savedSessions with
      | Some ss =>
          (true,
           (setActiveSessionId savedActiveId (setSessions (fun _ => ss) st),
            br))
      | None => (false, (st, mkBrowser None None (reloaded br)))
      end
  | None => (false, w)
  end.


End Startup.

Definition initialApp : App :=
  mkApp false false initializing true [] [] None false None [] false [] [].

Definition emptyBrowser : Browser := mkBrowser None None false.

(** ** Notions used in the statements *)

(** Every section a parsed response holds. *)
Definition chainSections (cd : ChainData) : list Section :=
  match task cd with Some s => [s] | None => [] end
  ++ match constraints cd with Some s => [s] | None => [] end
  ++ refinedAnswers cd.

Definition responseSections (r : ParsedResponse) : list Section :=
  match data r with
  | Flat l => l
  | Chain cd => chainSections cd
  end.

(** The sections the chain decomposition looks at. *)
Definition keptInChain (s : Section) : bool :=
  isTask s || isConstraints s || isRefined s.

(** The content of the merged constraints section: the first content, then
    for each later section a blank line, its bolded title and its content. *)
Definition mergedContent (first : Section) (later : list Section) : jsstring :=
  fold_left (fun acc s => acc ++ sub_heading s ++ content s) later
    (content first).

(** The ways a turn in flight fails: the attachment cannot be read, the
    call rejects, or the stream throws after some chunks. *)
Definition turnFails (st : App) (env : TurnEnv) : Prop :=
  (pending st <> None /\ fileToBase64 env = None)
  \/ sendMessageStream env = None
  \/ exists chunks, sendMessageStream env = Some (chunks, false).

(** The stream of a turn runs to its end. *)
Definition turnCompletes (st : App) (env : TurnEnv) (chunks : list Chunk)
  : Prop :=
  (pending st = None \/ fileToBase64 env <> None)
  /\ sendMessageStream env = Some (chunks, true).

(** [userPartsForHistory] of a turn that got as far as the call. *)
Definition userParts (st : App) (env : TurnEnv) (prompt : jsstring)
  : list Part :=
  match pending st, fileToBase64 env with
  | Some a, Some b64data => [TextPart prompt; InlineData (file_type a) b64data]
  | _, _ => [TextPart prompt]
  end.

(** The whole text of a stream. *)
Definition streamText (chunks : list Chunk) : jsstring :=
  List.concat (map chunk_text chunks).


(** How the [constraints] member evolves along the constraints-kind
    sections. *)
Definition mergeStep (o : option Section) (s : Section) : option Section :=
  match o with
  | Some c => Some (mkSection (title c) (content c ++ sub_heading s ++ content s))
  | None => Some (mkSection (lit "Constraints") (content s))
  end.

(** A session that outlives the deletion of [sessionId]. *)
Definition remains (sessionId : jsstring) (s : Session) : bool :=
  negb (str_eqb (id s) sessionId).

(** What the decomposition can hold: a task titled "Task", a constraints
    section titled "Constraints", and "Refined Answer" sections. *)
Definition chainShaped (cd : ChainData) : Prop :=
  (forall x, task cd = Some x -> isTask x = true)
  /\ (forall c, constraints cd = Some c -> title c = lit "Constraints")
  /\ Forall (fun x => isRefined x = true) (refinedAnswers cd).

(** ** Sample inputs *)

(** A chain-mode response with a task, two constraints-kind sections, an
    acknowledgement and two refined answers. *)
Definition sampleChainText : jsstring :=
  lit "[Acknowledgement]" ++ [LF] ++ lit "Understood." ++ [LF; LF]
  ++ lit "[Task]" ++ [LF] ++ lit "Write a poem." ++ [LF; LF]
  ++ lit "[STANDING CONSTRAINTS]" ++ [LF] ++ lit "1. Formal tone." ++ [LF; LF]
  ++ lit "[Constraints]" ++ [LF] ++ lit "1. Four lines." ++ [LF; LF]
  ++ lit "[Refined Answer 1/5]" ++ [LF] ++ lit "first" ++ [LF; LF]
  ++ lit "[Refined Answer 2/5]" ++ [LF] ++ lit "second".

Definition sampleAcknowledgement : Section :=
  mkSection (lit "Acknowledgement") (lit "Understood.").

(** Newest first. *)
Definition newestFirst (l : list Session) : Prop :=
  StronglySorted (fun a b => (createdAt b <= createdAt a)%Z) l.

(** [l'] is [l] with the sessions whose id is [activeId] changed as [P]
    allows and every other session as it was. *)
Definition tracks (activeId : jsstring) (P : Session -> Session -> Prop)
  (l l' : list Session) : Prop :=
  Forall2 (fun s s' =>
             id s' = id s
             /\ if str_eqb (id s) activeId then P s s' else s' = s) l l'.

(** The session of a turn in flight: nothing but its message log differs
    from the session the turn started on, and the log is the old one
    followed by the user message and the AI message under construction. *)
Definition inFlight (env : TurnEnv) (text : jsstring) (a : option Attachment)
  (s s' : Session) : Prop :=
  name s' = name s /\ chatHistory s' = chatHistory s
  /\ createdAt s' = createdAt s
  /\ exists m, author m = ai /\ msg_id m = (clock2 env + 1)%Z
               /\ messages s' = messages s ++ [userMessage env text a; m].

(** Three sessions created one after the other, in creation order. *)
Definition sampleSessions : list Session :=
  [ mkSession (lit "session_100") (lit "first") [] [] 100;
    mkSession (lit "session_200") (lit "second") [] [] 200;
    mkSession (lit "session_300") (lit "third") [] [] 300 ].

(** An application at rest on [sampleSessions], the session manager open
    and the oldest session active. *)
Definition sampleApp : App :=
  mkApp true true awaiting_task false (lit "Summarise this.") [] None false
    None [] true sampleSessions (lit "session_100").

(** A stream of two chunks that runs to its end, and the same stream
    throwing after its chunks. *)
Definition sampleChunks : list Chunk :=
  [mkChunk (lit "[Draft]") None; mkChunk (lit " A summary.") None].

Definition sampleEnvEnds : TurnEnv :=
  mkTurnEnv 1000 1000 None (Some (sampleChunks, true)).

Definition sampleEnvThrows : TurnEnv :=
  mkTurnEnv 1000 1000 None (Some (sampleChunks, false)).

Definition samplePrompt : jsstring := modePrefix false ++ lit "Summarise this.".

(** A stand-in for [JSON.parse] that accepts the text of the empty array
    and throws on anything else. *)
Definition sampleParse (s : jsstring) : option (list Session) :=
  if str_eqb s (lit "[]") then Some [] else None.

(** A start-up in which every request succeeds. *)
Definition sampleInitEnv : InitEnv :=
  mkInitEnv (fun file => Some (lit "/* " ++ file ++ lit " */")) true
    (Some (lit "ZERO Execution Engine initialized. Awaiting your first task."))
    5000 5000 6000.

(** A browser whose saved session record is cut short. *)
Definition corruptBrowser : Browser :=
  mkBrowser (Some (lit "[{")) (Some (lit "session_100")) false.

(** The four fetched files, [index.tsx] holding the directive block
    between an import and a type declaration, [index.html] holding a
    character outside ASCII. *)
Definition samplePre : jsstring :=
  lit "import React from 'react';" ++ [LF; LF].

Definition samplePost : jsstring :=
  [LF; LF] ++ lit "type Section = { title: string; content: string };" ++ [LF].

Definition sampleSources : SourceCode :=
  [ (lit "index.tsx",
     samplePre ++ OPEN ++ MASTER_PROMPT_source ++ CLOSE ++ samplePost);
    (lit "index.css", lit "body { margin: 0; }");
    (lit "index.html", lit "<title>ZERO " ++ [8212%N] ++ lit " Engine</title>");
    (lit "metadata.json", lit "{}") ].


(** ** Other session handlers (lines 1057-1090) *)

Definition setIsSessionsModalOpen (b : bool) (st : App) : App :=
  mkApp (aiReady st) (chatReady st) (stage st) (isLoading st) (userInput st)
    (critique st) (pending st) (chainMode st) (sourceCode st)
    (standingConstraints st) b (sessions st) (activeSessionId st).

(** [handleNewSession]: there is no [catch] around the creation, so a
    rejected exchange leaves the handler where it stood. *)
Definition handleNewSession (env : InitEnv) (st : App) : Tried :=
  if negb (aiReady st) then Completed st
  else
    match createAndActivate env (setIsLoading true st) with
    | Completed st1 =>
        Completed (setIsLoading false (setIsSessionsModalOpen false st1))
    | Threw st1 => Threw st1
    end.

(** [handleLoadSession] *)
Definition handleLoadSession (sessionId : jsstring) (st : App) : App :=
  setIsSessionsModalOpen false (setActiveSessionId sessionId st).

(** [handleRenameSession] *)
Definition handleRenameSession (sessionId newName : jsstring) (st : App)
  : App :=
  setSessions
    (map (fun s => if str_eqb (id s) sessionId then withName newName s else s))
    st.

(** Oldest first: the order in which [createNewSession] appends. *)
Definition oldestFirst (l : list Session) : Prop :=
  StronglySorted (fun a b => (createdAt a <= createdAt b)%Z) l.

(** A stand-in for [JSON.stringify] and a [JSON.parse] that reads its
    output back, on the sample store. *)
Definition sampleStringify (l : list Session) : jsstring :=
  lit "[3 sessions]".

Definition sampleParseBack (s : jsstring) : option (list Session) :=
  if str_eqb s (lit "[3 sessions]") then Some sampleSessions else None.

(** A start-up whose first source request rejects. *)
Definition offlineInitEnv : InitEnv :=
  mkInitEnv (fun _ => None) true None 5000 5000 6000.

(** A browser holding a saved store. *)
Definition savedBrowser : Browser :=
  mkBrowser (Some (lit "[3 sessions]")) (Some (lit "session_100")) false.

(** ** Presentation and translation (lines 633-638, 731-733, 1003-1050) *)

(** [AIMessageBlock]: the parsed response that is drawn is the cached one
    when the message has it, the parse of the content otherwise. *)
Definition parsedResponseOf (m : Message) : ParsedResponse :=
  match parsedData m with
  | Some p => p
  | None => parseResponse (msg_content m)
  end.

Definition MAX_RENDERED_MESSAGES : nat := 50.

Definition isHistoryTruncated (ms : list Message) : bool :=
  Nat.ltb MAX_RENDERED_MESSAGES (List.length ms).

(** [isHistoryTruncated ? messages.slice(-MAX_RENDERED_MESSAGES) : messages] *)
Definition renderedMessages (ms : list Message) : list Message :=
  if isHistoryTruncated ms
  then skipn (List.length ms - MAX_RENDERED_MESSAGES) ms
  else ms.

Definition setTranslating (messageId : Z) (m : Message) : Message :=
  if Z.eqb (msg_id m) messageId then
    mkMessage (msg_id m) (author m) (msg_content m) (citations m)
      (translation m) (Some true) (attachment m) (parsedData m)
  else m.

Definition setTranslation (messageId : Z) (language text : jsstring)
  (m : Message) : Message :=
  if Z.eqb (msg_id m) messageId then
    mkMessage (msg_id m) (author m) (msg_content m) (citations m)
      (Some (mkTranslation language text)) (Some false) (attachment m)
      (parsedData m)
  else m.

(** [handleTranslate(messageId, textToTranslate, language)];
    [response] is what [ai.models.generateContent] answers, [None] when it
    rejects. *)
Definition handleTranslate (messageId : Z) (language : jsstring)
  (response : option jsstring) (st : App) : App :=
  if negb (aiReady st) || negb (truthy (activeSessionId st)) then st
  else
    let st1 :=
      setSessions
        (onActive (activeSessionId st)
           (fun s => withMessages (map (setTranslating messageId) (messages s)) s))
        st in
    let text :=
      match response with
      | Some t => t
      | None => lit "Error: Translation failed."
      end in
    setSessions
      (onActive (activeSessionId st)
         (fun s =>
            withMessages (map (setTranslation messageId language text)
                            (messages s)) s))
      st1.

(** [handleExportLog]: the text written to the downloaded file. *)
Definition citationLine (c : Citation) : jsstring :=
  lit "- " ++ cite_title c ++ lit ": " ++ uri c.

Definition exportBlock (m : Message) : jsstring :=
  let cites :=
    match citations m with
    | Some (c :: cs) =>
        [LF; LF] ++ lit "[CITATIONS]" ++ [LF]
        ++ join [LF] (map citationLine (c :: cs))
    | _ => []
    end in
  let tr :=
    match translation m with
    | Some t =>
        [LF; LF] ++ lit "[TRANSLATION (" ++ lang t ++ lit ")]" ++ [LF]
        ++ tr_content t
    | None => []
    end in
  lit "[" ++ (match author m with user => lit "USER" | ai => lit "AI" end)
  ++ lit "]" ++ [LF] ++ msg_content m ++ cites ++ tr.

Definition exportSeparator : jsstring :=
  [LF; LF] ++ lit "====================" ++ [LF; LF].

Definition exportLog (s : Session) : jsstring :=
  join exportSeparator (map exportBlock (messages s)).

(** ** Notions used in the further statements *)

(** The citations in force after a stream: those of the last chunk that
    carried grounding metadata. *)
Definition lastGrounding (chunks : list Chunk) : list Citation :=
  fold_left (fun cs ch => match groundingChunks ch with
                          | Some l => keepCitations l
                          | None => cs
                          end) chunks [].

(** The AI message of a turn after the given chunks. *)
Definition turnMessage (env : TurnEnv) (chunks : list Chunk) : Message :=
  match chunks with
  | [] => aiMessagePlaceholder env
  | _ :: _ =>
      streamed (streamText chunks) (lastGrounding chunks)
        (aiMessagePlaceholder env)
  end.

(** The session of a turn after the given chunks. *)
Definition turnSession (env : TurnEnv) (text : jsstring)
  (a : option Attachment) (chunks : list Chunk) (s : Session) : Session :=
  withMessages
    (messages s ++ [userMessage env text a; turnMessage env chunks]) s.

(** A unit of the Base64 alphabet, or the padding sign. *)
Definition isBase64Unit (c : N) : bool :=
  match b64val c with Some _ => true | None => N.eqb c PAD end.

(** A source map whose style sheet holds a lone surrogate. *)
Definition brokenSources : SourceCode :=
  [ (lit "index.tsx", lit "const x = 1;");
    (lit "index.css", lit "a" ++ [55357%N]);
    (lit "index.html", lit "<html>");
    (lit "metadata.json", lit "{}") ].

Definition brokenMetaApp : App :=
  mkApp true true awaiting_task false (lit "Who are you?") [] None false
    (Some brokenSources) [] false sampleSessions (lit "session_100").

Definition sampleCritiqueApp : App :=
  mkApp true true awaiting_critique false [] (lit "Who are you? Proceed.")
    None false (Some sampleSources) [lit "Formal tone."] false sampleSessions
    (lit "session_100").

Definition sampleNewApp : App :=
  mkApp true true awaiting_task false (lit "Summarise this.") [] None false
    None [] false
    [mkSession (lit "session_100") (lit "New Session") [] [] 100]
    (lit "session_100").

Definition sampleLog : Session :=
  mkSession (lit "session_100") (lit "first")
    [ mkMessage 1 user (lit "question") None None None None None;
      mkMessage 2 ai (lit "[Draft]") (Some [mkCitation (lit "u") (lit "t")])
        (Some (mkTranslation (lit "French") (lit "brouillon"))) None None
        None ]
    [] 100.

(** [handleRenameSubmit] of the session manager (lines 439-445):
    [editingId] is the session being renamed, [renameValue] what was
    typed. *)
Definition handleRenameSubmit (editingId : option jsstring)
  (renameValue : jsstring) (st : App) : App :=
  match editingId with
  | Some sessionId =>
      if truthy sessionId && truthy (trim renameValue)
      then handleRenameSession sessionId (trim renameValue) st
      else st
  | None => st
  end.

(** The blank line and opening bracket that end a section. *)
Definition sectionBreak : jsstring := [LF; LF; LBRACKET].

(** A section as the protocol writes it: a non-empty trimmed title without
    a closing bracket, and a non-empty trimmed content that holds no blank
    line followed by an opening bracket. *)
Definition protocolSection (s : Section) : Prop :=
  title s <> [] /\ trim (title s) = title s /\ ~ In RBRACKET (title s)
  /\ content s <> [] /\ trim (content s) = content s
  /\ includes sectionBreak (content s) = false.

(** The text of one section: its bracketed title, a line break, its
    content. *)
Definition tagged (s : Section) : jsstring :=
  LBRACKET :: title s ++ RBRACKET :: LF :: content s.

(** The text of a response: its sections separated by blank lines. *)
Definition responseText (secs : list Section) : jsstring :=
  join [LF; LF] (map tagged secs).

(** ** What the redacted sources must not hold *)



(** An application at rest with two logs: the active one is [sampleLog],
    the other holds a message with the same id. *)
Definition sampleOtherLog : Session :=
  mkSession (lit "session_200") (lit "second")
    [ mkMessage 2 ai (lit "[Answer]") None None None None None ] [] 200.

Definition sampleLogApp : App :=
  mkApp true true awaiting_task false [] [] None false None [] false
    [sampleLog; sampleOtherLog] (lit "session_100").

(* ================================================================== *)
(** * Part II. Properties                                               *)
(* ================================================================== *)

(** ** Strings *)

Lemma str_eqb_eq (a b : jsstring) : str_eqb a b = true <-> a = b.
Proof.
  revert b; induction a as [|x a IH]; intros [|y b]; simpl;
    try (split; [discriminate | congruence]); try tauto.
  rewrite andb_true_iff, N.eqb_eq, IH. split.
  - intros [-> ->]; reflexivity.
  - intros E; inversion E; auto.
Qed.

Lemma str_eqb_refl (a : jsstring) : str_eqb a a = true.
Proof. apply str_eqb_eq; reflexivity. Qed.

Lemma str_eqb_neq (a b : jsstring) : str_eqb a b = false <-> a <> b.
Proof.
  destruct (str_eqb a b) eqn:E.
  - apply str_eqb_eq in E. split; [discriminate | congruence].
  - split; [|reflexivity]. intros _ H. apply str_eqb_eq in H. congruence.
Qed.

Lemma str_eqb_sym (a b : jsstring) : str_eqb a b = str_eqb b a.
Proof.
  destruct (str_eqb b a) eqn:E.
  - apply str_eqb_eq in E; subst; apply str_eqb_refl.
  - apply str_eqb_neq in E. apply str_eqb_neq. congruence.
Qed.

Lemma truthy_nonempty (s : jsstring) : truthy s = true <-> s <> [].
Proof. destruct s; simpl; split; congruence. Qed.

(** ** Section parser *)

Lemma isTask_title (s : Section) : isTask s = true -> title s = lit "Task".
Proof. apply str_eqb_eq. Qed.

Lemma isConstraints_title (s : Section) :
  isConstraints s = true ->
  title s = lit "Constraints" \/ title s = lit "STANDING CONSTRAINTS".
Proof.
  unfold isConstraints. rewrite orb_true_iff, !str_eqb_eq. tauto.
Qed.

Lemma isTask_not_constraints (s : Section) :
  isTask s = true -> isConstraints s = false.
Proof.
  intros H. apply isTask_title in H. unfold isConstraints. rewrite H.
  reflexivity.
Qed.

Lemma isRefined_exclusive (s : Section) :
  isRefined s = true -> isTask s = false /\ isConstraints s = false.
Proof.
  intros H. unfold isRefined in H. split.
  - destruct (isTask s) eqn:E; [|reflexivity].
    apply isTask_title in E. rewrite E in H. discriminate H.
  - destruct (isConstraints s) eqn:E; [|reflexivity].
    apply isConstraints_title in E. destruct E as [E|E]; rewrite E in H;
      discriminate H.
Qed.

(** Chain mode is reported exactly when the decomposition is returned. *)
Lemma parseResponse_chain (text : jsstring) :
  isChainMode (parseResponse text) = true ->
  parseResponse text = mkParsed true (Chain (decompose (exec_all O text)))
  /\ existsb isRefined (exec_all O text) = true.
Proof.
  unfold parseResponse.
  destruct (negb (has_bracket_tag text) && truthy (trim text));
    [discriminate|].
  destruct (Nat.eqb (List.length (exec_all 0 text)) 0 && truthy (trim text));
    [discriminate|].
  destruct (existsb isRefined (exec_all 0 text)); simpl;
    [auto | discriminate].
Qed.

Lemma parseResponse_chain_data (text : jsstring) (cd : ChainData) :
  data (parseResponse text) = Chain cd ->
  isChainMode (parseResponse text) = true.
Proof.
  unfold parseResponse.
  destruct (negb (has_bracket_tag text) && truthy (trim text));
    [discriminate|].
  destruct (Nat.eqb (List.length (exec_all 0 text)) 0 && truthy (trim text));
    [discriminate|].
  destruct (existsb isRefined (exec_all 0 text)); simpl;
    [auto | discriminate].
Qed.

Lemma constraints_fold (l : list Section) (cd : ChainData) :
  constraints (fold_left chain_step l cd)
  = fold_left mergeStep (filter isConstraints l) (constraints cd).
Proof.
  revert cd; induction l as [|s l IH]; intros cd; simpl; [reflexivity|].
  rewrite IH. unfold chain_step.
  destruct (isTask s) eqn:Et.
  - rewrite (isTask_not_constraints s Et). reflexivity.
  - destruct (isConstraints s) eqn:Ec.
    + simpl. destruct (constraints cd); reflexivity.
    + destruct (isRefined s); reflexivity.
Qed.

Lemma refinedAnswers_fold (l : list Section) (cd : ChainData) :
  refinedAnswers (fold_left chain_step l cd)
  = refinedAnswers cd ++ filter isRefined l.
Proof.
  revert cd; induction l as [|s l IH]; intros cd; simpl.
  - now rewrite app_nil_r.
  - rewrite IH. unfold chain_step.
    destruct (isRefined s) eqn:Er.
    + destruct (isRefined_exclusive s Er) as [-> ->]. simpl.
      now rewrite <- app_assoc.
    + destruct (isTask s); [reflexivity|].
      destruct (isConstraints s); [|reflexivity].
      destruct (constraints cd); reflexivity.
Qed.

Lemma mergeStep_fold (later : list Section) (c : Section) :
  fold_left mergeStep later (Some c)
  = Some (mkSection (title c)
            (fold_left (fun acc s => acc ++ sub_heading s ++ content s) later
               (content c))).
Proof.
  revert c; induction later as [|s later IH]; intros c; simpl.
  - destruct c; reflexivity.
  - rewrite IH. reflexivity.
Qed.

Lemma mergedContent_prefix (later : list Section) (acc : jsstring) :
  exists tail,
    fold_left (fun a s => a ++ sub_heading s ++ content s) later acc
    = acc ++ tail.
Proof.
  revert acc; induction later as [|s later IH]; intros acc; cbn [fold_left].
  - exists []. now rewrite app_nil_r.
  - destruct (IH (acc ++ sub_heading s ++ content s)) as [tail ->].
    exists (sub_heading s ++ content s ++ tail).
    now rewrite <- !app_assoc.
Qed.

Lemma chain_step_dropped (cd : ChainData) (s : Section) :
  keptInChain s = false -> chain_step cd s = cd.
Proof.
  unfold keptInChain, chain_step. intros H.
  apply orb_false_iff in H as [H Hr]. apply orb_false_iff in H as [Ht Hc].
  now rewrite Ht, Hc, Hr.
Qed.

Lemma decompose_filter_kept (l : list Section) (cd : ChainData) :
  fold_left chain_step l cd = fold_left chain_step (filter keptInChain l) cd.
Proof.
  revert cd; induction l as [|s l IH]; intros cd; simpl; [reflexivity|].
  destruct (keptInChain s) eqn:E; simpl.
  - apply IH.
  - rewrite (chain_step_dropped cd s E). apply IH.
Qed.


Lemma chain_step_shaped (cd : ChainData) (s : Section) :
  chainShaped cd -> chainShaped (chain_step cd s).
Proof.
  intros (Ht & Hc & Hr). unfold chain_step.
  destruct (isTask s) eqn:Et; [|destruct (isConstraints s) eqn:Ec;
    [|destruct (isRefined s) eqn:Er]].
  - repeat split; simpl; auto. intros x [= <-]. exact Et.
  - destruct (constraints cd) as [c|] eqn:E; repeat split; simpl; auto.
    + intros c' [= <-]. simpl. apply Hc. reflexivity.
    + intros c' [= <-]. reflexivity.
  - repeat split; simpl; auto.
    apply Forall_app. split; [exact Hr|]. constructor; [exact Er|constructor].
  - repeat split; auto.
Qed.

Lemma decompose_shaped (l : list Section) (cd : ChainData) :
  chainShaped cd -> chainShaped (fold_left chain_step l cd).
Proof.
  revert cd; induction l as [|s l IH]; intros cd H; simpl; [exact H|].
  apply IH, chain_step_shaped, H.
Qed.

Lemma emptyChain_shaped : chainShaped emptyChain.
Proof. repeat split; simpl; try discriminate. constructor. Qed.

Lemma existsb_filter_nonempty {A} (f : A -> bool) (l : list A) :
  existsb f l = true -> filter f l <> [].
Proof.
  induction l as [|x l IH]; simpl; [discriminate|].
  destruct (f x); simpl; [discriminate | exact IH].
Qed.

Lemma trimStart_blank (s : jsstring) :
  trimStart s = [] -> forallb isWhiteSpace s = true.
Proof.
  induction s as [|c r IH]; simpl; [reflexivity|].
  destruct (isWhiteSpace c); [exact IH | discriminate].
Qed.

Lemma trimStart_all_blank (s : jsstring) :
  forallb isWhiteSpace (trimStart s) = true -> forallb isWhiteSpace s = true.
Proof.
  induction s as [|c r IH]; simpl; [reflexivity|].
  destruct (isWhiteSpace c) eqn:E; simpl; [exact IH|].
  rewrite E. discriminate.
Qed.

Lemma forallb_rev {A} (f : A -> bool) (l : list A) :
  forallb f (rev l) = true -> forallb f l = true.
Proof.
  rewrite !forallb_forall. intros H x Hx. apply H, in_rev.
  rewrite rev_involutive. exact Hx.
Qed.

(** A text that [trim] empties holds white space only. *)
Lemma trim_blank (s : jsstring) :
  trim s = [] -> forallb isWhiteSpace s = true.
Proof.
  unfold trim, trimEnd. intros H.
  apply (f_equal (@rev N)) in H. rewrite rev_involutive in H. simpl in H.
  apply trimStart_blank, forallb_rev in H.
  apply trimStart_all_blank, H.
Qed.

Lemma blank_not_bracket (c : N) :
  isWhiteSpace c = true -> N.eqb c LBRACKET = false.
Proof.
  intros H. destruct (N.eqb_spec c LBRACKET) as [->|]; [|reflexivity].
  vm_compute in H. discriminate.
Qed.

Lemma blank_no_tag (s : jsstring) :
  forallb isWhiteSpace s = true -> has_bracket_tag s = false.
Proof.
  induction s as [|c r IH]; [reflexivity|].
  cbn [forallb has_bracket_tag]. intros [Hc Hr]%andb_true_iff.
  rewrite (blank_not_bracket c Hc), (IH Hr). reflexivity.
Qed.

Lemma blank_no_section (s : jsstring) (skip : nat) :
  forallb isWhiteSpace s = true -> exec_all skip s = [].
Proof.
  revert skip; induction s as [|c r IH]; intros skip; [reflexivity|].
  cbn [forallb]. intros [Hc Hr]%andb_true_iff.
  cbn [exec_all]. destruct skip as [|k]; [|apply IH, Hr].
  unfold match_at. rewrite (blank_not_bracket c Hc). apply IH, Hr.
Qed.

(** C2, as the code has it. A text with at least one character that is not
    white space is parsed into at least one section; when it holds no
    bracket tag, or when the section expression matches nowhere, the result
    is the single section "Response" around the whole text. A text that
    [trim] empties (the empty text, or white space only) is parsed into the
    flat result with no section at all. *)
Theorem parseResponse_total (text : jsstring) :
  (trim text <> [] ->
   responseSections (parseResponse text) <> []
   /\ (has_bracket_tag text = false ->
       parseResponse text = mkParsed false (Flat [responseSection text]))
   /\ (exec_all O text = [] ->
       parseResponse text = mkParsed false (Flat [responseSection text])))
  /\ (trim text = [] ->
      parseResponse text = mkParsed false (Flat [])
      /\ responseSections (parseResponse text) = []).
Proof.
  split.
  - intros Hne. apply truthy_nonempty in Hne.
    unfold parseResponse. rewrite Hne, !andb_true_r.
    remember (exec_all 0 text) as secs eqn:Hs.
    destruct (has_bracket_tag text) eqn:Hb; cbn [negb].
    2: { repeat split; auto; discriminate. }
    destruct secs as [|s0 l]; cbn [List.length Nat.eqb].
    + repeat split; auto; discriminate.
    + destruct (existsb isRefined (s0 :: l)) eqn:Hc; cbn [negb].
      * repeat split; try discriminate.
        unfold responseSections, chainSections, decompose. cbn [data].
        rewrite refinedAnswers_fold. intros H.
        apply app_eq_nil in H as [_ H]. apply app_eq_nil in H as [_ H].
        apply app_eq_nil in H as [_ H].
        revert H. apply existsb_filter_nonempty. exact Hc.
      * repeat split; discriminate.
  - intros He. pose proof (trim_blank text He) as Hb.
    assert (parseResponse text = mkParsed false (Flat [])) as E.
    { unfold parseResponse.
      rewrite He, (blank_no_tag text Hb), (blank_no_section text O Hb).
      reflexivity. }
    rewrite E. split; reflexivity.
Qed.

Lemma parseResponse_total_witness :
  (trim (lit "hello world") <> []
   /\ parseResponse (lit "hello world")
      = mkParsed false (Flat [responseSection (lit "hello world")]))
  /\ (trim (lit "  ") = []
      /\ parseResponse (lit "  ") = mkParsed false (Flat [])).
Proof.
  split; split.
  - vm_compute; discriminate.
  - refine (proj1 (proj2 (proj1 (parseResponse_total (lit "hello world")) _)) _);
      [vm_compute; discriminate | vm_compute; reflexivity].
  - vm_compute; reflexivity.
  - refine (proj1 (proj2 (parseResponse_total (lit "  ")) _)).
    vm_compute; reflexivity.
Defined.

(** C2, as the claim words it, fails on a text made of white space: one
    blank is not the empty string, and it is parsed into no section. *)
Lemma parseResponse_blank_counterexample :
  lit " " <> []
  /\ parseResponse (lit " ") = mkParsed false (Flat [])
  /\ responseSections (parseResponse (lit " ")) = [].
Proof. repeat split. discriminate. Qed.

(** C6. In chain mode, when the text holds two or more sections titled
    "Constraints" or "STANDING CONSTRAINTS", the decomposition holds one
    constraints section: its content is the first section's content, then,
    for each later one in order, a blank line, the bolded title of that
    section and its content. *)
Theorem chain_constraints_merged
  (text : jsstring) (c1 c2 : Section) (later : list Section) :
  isChainMode (parseResponse text) = true ->
  filter isConstraints (exec_all O text) = c1 :: c2 :: later ->
  exists cd,
    data (parseResponse text) = Chain cd
    /\ constraints cd
       = Some (mkSection (lit "Constraints") (mergedContent c1 (c2 :: later)))
    /\ exists tail,
         mergedContent c1 (c2 :: later)
         = content c1 ++ [LF; LF] ++ lit "**" ++ title c2 ++ lit "**" ++ [LF]
           ++ content c2 ++ tail.
Proof.
  intros Hchain Hf. destruct (parseResponse_chain text Hchain) as [-> _].
  exists (decompose (exec_all 0 text)). split; [reflexivity|]. split.
  - unfold decompose. rewrite constraints_fold, Hf.
    cbn [fold_left mergeStep emptyChain constraints].
    rewrite mergeStep_fold. reflexivity.
  - unfold mergedContent. cbn [fold_left].
    destruct (mergedContent_prefix later
                (content c1 ++ sub_heading c2 ++ content c2)) as [tail ->].
    exists tail. unfold sub_heading. now rewrite <- !app_assoc.
Qed.

Lemma chain_constraints_merged_witness :
  exists cd,
    data (parseResponse sampleChainText) = Chain cd
    /\ constraints cd
       = Some (mkSection (lit "Constraints")
                 (lit "1. Formal tone." ++ [LF; LF] ++ lit "**Constraints**"
                  ++ [LF] ++ lit "1. Four lines.")).
Proof.
  destruct (chain_constraints_merged sampleChainText
              (mkSection (lit "STANDING CONSTRAINTS") (lit "1. Formal tone."))
              (mkSection (lit "Constraints") (lit "1. Four lines.")) [])
    as (cd & Hd & Hc & _);
    [vm_compute; reflexivity | vm_compute; reflexivity |].
  exists cd. split; [exact Hd | exact Hc].
Defined.

(** C9. In chain mode a parsed section whose title is not "Task", not
    "Constraints" or "STANDING CONSTRAINTS" and does not start with
    "Refined Answer" is dropped: it is no member of the decomposition, and
    the decomposition is the one of the text's other sections alone. *)
Theorem chain_drops_other_sections
  (text : jsstring) (cd : ChainData) (s : Section) :
  data (parseResponse text) = Chain cd ->
  In s (exec_all O text) ->
  isTask s = false -> isConstraints s = false -> isRefined s = false ->
  ~ In s (chainSections cd)
  /\ ~ In s (filter keptInChain (exec_all O text))
  /\ cd = decompose (filter keptInChain (exec_all O text)).
Proof.
  intros Hd _ Ht Hc Hr.
  pose proof (parseResponse_chain_data text cd Hd) as Hm.
  destruct (parseResponse_chain text Hm) as [E _].
  rewrite E in Hd. simpl in Hd. injection Hd as <-.
  assert (Hs : chainShaped (decompose (exec_all 0 text)))
    by (apply decompose_shaped, emptyChain_shaped).
  destruct Hs as (St & Sc & Sr).
  split; [|split].
  - unfold chainSections. intros H.
    apply in_app_or in H as [H|H]; [|apply in_app_or in H as [H|H]].
    + destruct (task (decompose (exec_all 0 text))) as [x|] eqn:Ex;
        [|contradiction].
      destruct H as [<-|[]]. rewrite (St x eq_refl) in Ht. discriminate.
    + destruct (constraints (decompose (exec_all 0 text))) as [x|] eqn:Ex;
        [|contradiction].
      destruct H as [<-|[]]. unfold isConstraints in Hc.
      rewrite (Sc x eq_refl) in Hc. discriminate.
    + rewrite Forall_forall in Sr. rewrite (Sr s H) in Hr. discriminate.
  - intros H. apply filter_In in H as [_ H]. unfold keptInChain in H.
    rewrite Ht, Hc, Hr in H. discriminate.
  - unfold decompose. apply decompose_filter_kept.
Qed.

Lemma chain_drops_other_sections_witness :
  ~ In sampleAcknowledgement
      (chainSections (decompose (exec_all O sampleChainText))).
Proof.
  refine (proj1 (chain_drops_other_sections sampleChainText
                   (decompose (exec_all O sampleChainText))
                   sampleAcknowledgement _ _ _ _ _)).
  - vm_compute; reflexivity.
  - vm_compute. left; reflexivity.
  - vm_compute; reflexivity.
  - vm_compute; reflexivity.
  - vm_compute; reflexivity.
Defined.

(** ** Session store *)

Lemma sort_insert_In (x a : Session) (l : list Session) :
  In x (sort_insert a l) <-> x = a \/ In x l.
Proof.
  induction l as [|y l IH]; simpl.
  - intuition congruence.
  - destruct (createdAt y <=? createdAt a)%Z; simpl; [intuition congruence|].
    rewrite IH. intuition congruence.
Qed.

Lemma sort_newest_first_In (x : Session) (l : list Session) :
  In x (sort_newest_first l) <-> In x l.
Proof.
  induction l as [|a l IH]; simpl; [tauto|].
  rewrite sort_insert_In, IH. intuition congruence.
Qed.

Lemma sort_insert_Permutation (a : Session) (l : list Session) :
  Permutation (a :: l) (sort_insert a l).
Proof.
  induction l as [|y l IH]; simpl; [reflexivity|].
  destruct (createdAt y <=? createdAt a)%Z; [reflexivity|].
  rewrite perm_swap. now apply perm_skip.
Qed.

Lemma sort_newest_first_Permutation (l : list Session) :
  Permutation l (sort_newest_first l).
Proof.
  induction l as [|a l IH]; simpl; [reflexivity|].
  rewrite <- sort_insert_Permutation. now apply perm_skip.
Qed.

Lemma sort_insert_newestFirst (a : Session) (l : list Session) :
  newestFirst l -> newestFirst (sort_insert a l).
Proof.
  unfold newestFirst. induction 1 as [|y l Hl IH Hy]; simpl.
  - repeat constructor.
  - destruct (createdAt y <=? createdAt a)%Z eqn:E.
    + apply Z.leb_le in E. constructor; [constructor; assumption|].
      constructor; [exact E|].
      rewrite Forall_forall in *. intros z Hz. specialize (Hy z Hz). lia.
    + apply Z.leb_gt in E. constructor; [exact IH|].
      rewrite Forall_forall in *. intros z Hz.
      apply sort_insert_In in Hz as [->|Hz]; [lia | auto].
Qed.

Lemma sort_newest_first_sorted (l : list Session) :
  newestFirst (sort_newest_first l).
Proof.
  induction l as [|a l IH]; simpl.
  - constructor.
  - apply sort_insert_newestFirst, IH.
Qed.

Lemma filter_newestFirst (f : Session -> bool) (l : list Session) :
  newestFirst l -> newestFirst (filter f l).
Proof.
  unfold newestFirst. induction 1 as [|y l Hl IH Hy]; simpl; [constructor|].
  destruct (f y); [|exact IH]. constructor; [exact IH|].
  rewrite Forall_forall in *. intros z Hz. apply filter_In in Hz as [Hz _].
  auto.
Qed.

Lemma remains_iff (sessionId : jsstring) (s : Session) :
  remains sessionId s = true <-> id s <> sessionId.
Proof.
  unfold remains. rewrite negb_true_iff. apply str_eqb_neq.
Qed.

Lemma createdAt_distinct (l : list Session) (p q : Session) :
  NoDup (map createdAt l) -> In p l -> In q l -> p <> q ->
  createdAt p <> createdAt q.
Proof.
  induction l as [|a l IH]; simpl; [tauto|].
  intros Hnd Hp Hq Hpq. inversion Hnd as [|? ? Hn Hnd']; subst.
  destruct Hp as [->|Hp], Hq as [->|Hq].
  - congruence.
  - intros E. apply Hn. rewrite E. now apply in_map.
  - intros E. apply Hn. rewrite <- E. now apply in_map.
  - now apply IH.
Qed.

(** The handler on its own promotes the first of the remaining sessions
    in the order of the array it is given. *)
Lemma handleDeleteSession_active (st : App) (br : Browser)
  (first : Session) (others : list Session) :
  filter (remains (activeSessionId st)) (sessions st) = first :: others ->
  handleDeleteSession (activeSessionId st) (st, br)
  = (setSessions (fun _ => first :: others)
       (setActiveSessionId (id first) st), br).
Proof.
  intros H. unfold handleDeleteSession. fold (remains (activeSessionId st)).
  rewrite H, str_eqb_refl. reflexivity.
Qed.

(** C1. With sessions of distinct creation times, of which at least one is
    not the active one, deleting the active session from the session manager
    makes the most recently created of the remaining sessions the active
    one. The manager has sorted the state array newest first when it drew
    the delete button, so the first remaining session, which the handler
    promotes, is the newest. *)
Theorem delete_active_promotes_newest
  (st : App) (br : Browser) (r : Session) :
  isSessionsModalOpen st = true ->
  NoDup (map createdAt (sessions st)) ->
  In r (sessions st) -> id r <> activeSessionId st ->
  exists p,
    In p (sessions st) /\ id p <> activeSessionId st
    /\ (forall q, In q (sessions st) -> id q <> activeSessionId st ->
                  q <> p -> (createdAt q < createdAt p)%Z)
    /\ activeSessionId (fst (clickDelete (activeSessionId st) (st, br)))
       = id p.
Proof.
  intros Hopen Hnd Hr Hid.
  unfold clickDelete, renderSessionsModal. cbn [fst snd]. rewrite Hopen.
  set (st1 := setSessions sort_newest_first st).
  assert (Ha : activeSessionId st1 = activeSessionId st) by reflexivity.
  assert (Hs1 : sessions st1 = sort_newest_first (sessions st))
    by reflexivity.
  assert (Hmem : forall x, In x (filter (remains (activeSessionId st1))
                                   (sessions st1))
                           <-> In x (sessions st)
                               /\ id x <> activeSessionId st).
  { intros x. rewrite filter_In, Hs1, sort_newest_first_In, remains_iff, Ha.
    tauto. }
  destruct (filter (remains (activeSessionId st1)) (sessions st1))
    as [|p others] eqn:Hf.
  - exfalso. apply (proj2 (Hmem r)). split; assumption.
  - rewrite <- Ha. rewrite (handleDeleteSession_active st1 br p others Hf).
    destruct (proj1 (Hmem p) (or_introl eq_refl)) as [Hp1 Hp2].
    exists p. split; [exact Hp1|]. split; [exact Hp2|]. split; [|reflexivity].
    intros q Hq Hqid Hqp.
    assert (Hs : newestFirst (p :: others)).
    { rewrite <- Hf, Hs1.
      apply filter_newestFirst, sort_newest_first_sorted. }
    destruct (proj2 (Hmem q) (conj Hq Hqid)) as [->|Hqin]; [congruence|].
    inversion Hs as [|? ? _ Hall]; subst. rewrite Forall_forall in Hall.
    specialize (Hall q Hqin).
    pose proof (createdAt_distinct _ q p Hnd Hq Hp1 Hqp). lia.
Qed.

Lemma delete_active_promotes_newest_witness :
  exists p,
    In p sampleSessions /\ id p <> lit "session_100"
    /\ (forall q, In q sampleSessions -> id q <> lit "session_100" ->
                  q <> p -> (createdAt q < createdAt p)%Z)
    /\ activeSessionId
         (fst (clickDelete (lit "session_100") (sampleApp, emptyBrowser)))
       = id p.
Proof.
  refine (delete_active_promotes_newest sampleApp emptyBrowser
            (mkSession (lit "session_200") (lit "second") [] [] 200)
            _ _ _ _).
  - reflexivity.
  - repeat constructor; simpl; intuition discriminate.
  - right; left; reflexivity.
  - intros H; vm_compute in H; discriminate H.
Defined.

Lemma find_some_In (f : Session -> bool) (l : list Session) (s : Session) :
  find f l = Some s -> In s l /\ f s = true.
Proof. apply find_some. Qed.

Lemma filter_remove_one (sessionId : jsstring) (l1 l2 : list Session)
  (d : Session) :
  id d = sessionId ->
  NoDup (map id (l1 ++ d :: l2)) ->
  filter (remains sessionId) (l1 ++ d :: l2) = l1 ++ l2.
Proof.
  intros Hd Hnd.
  assert (Hall : forall s, In s (l1 ++ l2) -> remains sessionId s = true).
  { intros s Hs. apply remains_iff. intros E.
    rewrite map_app in Hnd. simpl in Hnd.
    apply NoDup_remove_2 in Hnd. apply Hnd.
    rewrite <- map_app, Hd, <- E. now apply in_map. }
  rewrite filter_app. simpl.
  replace (remains sessionId d) with false
    by (symmetry; unfold remains; rewrite Hd, str_eqb_refl; reflexivity).
  rewrite <- filter_app.
  clear Hnd. induction (l1 ++ l2) as [|x l IH]; simpl; [reflexivity|].
  rewrite (Hall x (or_introl eq_refl)). f_equal. apply IH.
  intros s Hs. apply Hall. now right.
Qed.

(** C10. Deleting a session other than the active one, in a store that
    holds the active session, changes nothing but the session array: the
    active id, every other piece of state and the browser are as before, and
    the array is the former one, in its order, without the sessions bearing
    the deleted id (with distinct ids: without that one session). *)
Theorem delete_inactive_frame
  (sessionId : jsstring) (st : App) (br : Browser) :
  sessionId <> activeSessionId st ->
  activeSession st <> None ->
  handleDeleteSession sessionId (st, br)
  = (setSessions (filter (remains sessionId)) st, br)
  /\ activeSessionId (fst (handleDeleteSession sessionId (st, br)))
     = activeSessionId st
  /\ (forall s, In s (sessions (fst (handleDeleteSession sessionId (st, br))))
                <-> In s (sessions st) /\ id s <> sessionId)
  /\ (forall l1 d l2,
        sessions st = l1 ++ d :: l2 -> id d = sessionId ->
        NoDup (map id (sessions st)) ->
        sessions (fst (handleDeleteSession sessionId (st, br))) = l1 ++ l2).
Proof.
  intros Hneq Hact.
  assert (E : handleDeleteSession sessionId (st, br)
              = (setSessions (filter (remains sessionId)) st, br)).
  { unfold handleDeleteSession. fold (remains sessionId).
    destruct (filter (remains sessionId) (sessions st)) as [|f rest] eqn:Hf.
    - exfalso. unfold activeSession in Hact.
      destruct (find _ (sessions st)) as [a|] eqn:Ef; [|congruence].
      apply find_some_In in Ef as [Hin Hid]. apply str_eqb_eq in Hid.
      assert (Hin' : In a (filter (remains sessionId) (sessions st))).
      { apply filter_In. split; [exact Hin|]. apply remains_iff. congruence. }
      rewrite Hf in Hin'. exact Hin'.
    - apply str_eqb_neq in Hneq. rewrite Hneq. unfold setSessions.
      rewrite Hf. reflexivity. }
  rewrite E. cbn [fst]. split; [reflexivity|]. split; [reflexivity|]. split.
  - intros s. cbn [sessions setSessions]. rewrite filter_In, remains_iff.
    tauto.
  - intros l1 d l2 Hs Hd Hnd. cbn [sessions setSessions].
    rewrite Hs in *. now apply filter_remove_one.
Qed.

Lemma delete_inactive_frame_witness :
  handleDeleteSession (lit "session_200") (sampleApp, emptyBrowser)
  = (setSessions (filter (remains (lit "session_200"))) sampleApp,
     emptyBrowser).
Proof.
  refine (proj1 (delete_inactive_frame (lit "session_200") sampleApp
                   emptyBrowser _ _)).
  - intros H; vm_compute in H; discriminate H.
  - intros H; vm_compute in H; discriminate H.
Defined.

(** ** One turn *)

Lemma overwriteLast_snoc (f : Message -> Message) (l : list Message)
  (m : Message) :
  overwriteLast f (l ++ [m])
  = l ++ [match author m with ai => f m | user => m end].
Proof.
  unfold overwriteLast. rewrite rev_app_distr. simpl.
  now rewrite rev_involutive.
Qed.

Lemma tracks_start (activeId : jsstring) (P : Session -> Session -> Prop)
  (f : Session -> Session) (l : list Session) :
  (forall s, id (f s) = id s /\ P s (f s)) ->
  tracks activeId P l (onActive activeId f l).
Proof.
  intros Hf. unfold tracks, onActive.
  induction l as [|s l IH]; simpl; constructor; [|exact IH].
  destruct (str_eqb (id s) activeId); [apply Hf | split; reflexivity].
Qed.

Lemma tracks_step (activeId : jsstring) (P Q : Session -> Session -> Prop)
  (f : Session -> Session) (l l' : list Session) :
  (forall s s', P s s' -> id (f s') = id s' /\ Q s (f s')) ->
  tracks activeId P l l' ->
  tracks activeId Q l (onActive activeId f l').
Proof.
  intros Hf. unfold tracks, onActive.
  induction 1 as [|s s' l l' [Hid Hs] _ IH]; simpl; constructor; [|exact IH].
  rewrite Hid. destruct (str_eqb (id s) activeId).
  - destruct (Hf s s' Hs) as [E HQ]. split; [congruence | exact HQ].
  - split; assumption.
Qed.

Lemma tracks_map {B} (activeId : jsstring) (P : Session -> Session -> Prop)
  (g h : Session -> B) (l l' : list Session) :
  (forall s s', str_eqb (id s) activeId = true -> P s s' -> g s' = h s) ->
  (forall s, str_eqb (id s) activeId = false -> g s = h s) ->
  tracks activeId P l l' ->
  map g l' = map h l.
Proof.
  intros Hg Hh. unfold tracks.
  induction 1 as [|s s' l l' [Hid Hs] _ IH]; simpl; [reflexivity|].
  f_equal; [|exact IH].
  destruct (str_eqb (id s) activeId) eqn:E; [now apply Hg|].
  subst s'. now apply Hh.
Qed.

Lemma tracks_find (activeId : jsstring) (P : Session -> Session -> Prop)
  (l l' : list Session) (s : Session) :
  tracks activeId P l l' ->
  find (fun x => str_eqb (id x) activeId) l = Some s ->
  exists s', find (fun x => str_eqb (id x) activeId) l' = Some s' /\ P s s'.
Proof.
  unfold tracks. induction 1 as [|x x' l l' [Hid Hx] _ IH]; simpl;
    [discriminate|].
  rewrite Hid. destruct (str_eqb (id x) activeId).
  - intros [= <-]. exists x'. split; [reflexivity | exact Hx].
  - exact IH.
Qed.

Lemma inFlight_streamed (env : TurnEnv) (text : jsstring)
  (a : option Attachment) (f : Message -> Message) (s s' : Session) :
  (forall m, author (f m) = author m /\ msg_id (f m) = msg_id m) ->
  inFlight env text a s s' ->
  id (withMessages (overwriteLast f (messages s')) s') = id s'
  /\ inFlight env text a s
       (withMessages (overwriteLast f (messages s')) s').
Proof.
  intros Hf (Hn & Hh & Hc & m & Ha & Hi & Hm). split; [reflexivity|].
  repeat split; simpl; auto.
  exists (f m). destruct (Hf m) as [Ha' Hi']. repeat split; try congruence.
  rewrite Hm.
  change (messages s ++ [userMessage env text a; m])
    with (messages s ++ [userMessage env text a] ++ [m]).
  rewrite app_assoc, overwriteLast_snoc, Ha, <- app_assoc. reflexivity.
Qed.

Lemma streamLoop_text (t : Turn) (chunks : list Chunk) (p : Progress) :
  fullResponseText (streamLoop t chunks p)
  = fullResponseText p ++ streamText chunks.
Proof.
  unfold streamLoop, streamText.
  revert p; induction chunks as [|c chunks IH]; intros p; simpl.
  - now rewrite app_nil_r.
  - rewrite IH. simpl. now rewrite <- app_assoc.
Qed.

Lemma streamLoop_tracks (env : TurnEnv) (text : jsstring)
  (a : option Attachment) (t : Turn) (l : list Session)
  (chunks : list Chunk) (p : Progress) :
  tracks (turn_session t) (inFlight env text a) l (sessions (during p)) ->
  tracks (turn_session t) (inFlight env text a) l
    (sessions (during (streamLoop t chunks p))).
Proof.
  unfold streamLoop.
  revert p; induction chunks as [|c chunks IH]; intros p H; simpl;
    [exact H|].
  apply IH. simpl.
  eapply tracks_step; [|exact H].
  intros s s' Hs. apply inFlight_streamed; [|exact Hs].
  intros m. split; reflexivity.
Qed.

Lemma streamLoop_active (t : Turn) (chunks : list Chunk) (p : Progress) :
  activeSessionId (during (streamLoop t chunks p))
  = activeSessionId (during p).
Proof.
  unfold streamLoop.
  revert p; induction chunks as [|c chunks IH]; intros p; simpl;
    [reflexivity|].
  rewrite IH. reflexivity.
Qed.

Lemma acceptedText_active (st : App) (text : jsstring) :
  acceptedText st = Some text -> exists s, activeSession st = Some s.
Proof.
  unfold acceptedText.
  destruct (isLoading st || negb (chatReady st)); [discriminate|].
  destruct (activeSession st) as [s|]; [|discriminate].
  intros _. now exists s.
Qed.

(** The state in which an accepted turn enters its [try] block. *)
Lemma startTurn_inFlight (st : App) (env : TurnEnv) (text prompt : jsstring) :
  acceptedText st = Some text ->
  finalPromptToServer st text = Some prompt ->
  exists t st2,
    startTurn st env = InFlight t st2
    /\ t = mkTurn text (isMetaQuestion (stage st) text) prompt (pending st)
             (activeSessionId st) (chainMode st)
    /\ activeSessionId st2 = activeSessionId st
    /\ stage st2 = processing /\ isLoading st2 = true
    /\ tracks (activeSessionId st) (inFlight env text (pending st))
         (sessions st) (sessions st2).
Proof.
  intros Ha Hp. unfold startTurn. rewrite Ha, Hp.
  eexists; eexists. split; [reflexivity|]. split; [reflexivity|].
  split; [reflexivity|]. split; [reflexivity|]. split; [reflexivity|].
  cbn [sessions clearInputs setSessions setStage setIsLoading].
  apply tracks_start. intros s. split; [reflexivity|].
  repeat split; simpl.
  exists (aiMessagePlaceholder env). repeat split.
Qed.

Lemma streamLoop_nil (t : Turn) (p : Progress) : streamLoop t [] p = p.
Proof. reflexivity. Qed.

(** A failing turn ends in the [catch] block, entered from the state some
    prefix of the stream has left, after at most one call. *)
Lemma tryBlock_fails (t : Turn) (env : TurnEnv) (st2 : App) :
  (turn_attachment t <> None /\ fileToBase64 env = None)
  \/ sendMessageStream env = None
  \/ (exists chunks, sendMessageStream env = Some (chunks, false)) ->
  exists chunks calls,
    tryBlock t env st2
    = (onError t (during (streamLoop t chunks (mkProgress [] [] st2))), calls)
    /\ (calls <= 1)%nat.
Proof.
  intros H. unfold tryBlock.
  destruct (turn_attachment t) as [a|] eqn:Ea.
  - destruct (fileToBase64 env) as [d|] eqn:Ef.
    + destruct H as [[_ H]|[H|[chunks H]]]; [discriminate| |]; rewrite H.
      * exists [], 1%nat. split; [reflexivity | lia].
      * exists chunks, 1%nat. split; [reflexivity | lia].
    + exists [], 0%nat. split; [reflexivity | lia].
  - destruct H as [[H _]|[H|[chunks H]]]; [congruence| |]; rewrite H.
    + exists [], 1%nat. split; [reflexivity | lia].
    + exists chunks, 1%nat. split; [reflexivity | lia].
Qed.

Lemma tryBlock_completes (t : Turn) (env : TurnEnv) (st2 : App)
  (chunks : list Chunk) :
  (turn_attachment t = None \/ fileToBase64 env <> None) ->
  sendMessageStream env = Some (chunks, true) ->
  exists parts,
    tryBlock t env st2
    = (onComplete t parts (streamLoop t chunks (mkProgress [] [] st2)), 1%nat)
    /\ parts = match turn_attachment t, fileToBase64 env with
               | Some a, Some b64data =>
                   [TextPart (turn_prompt t); InlineData (file_type a) b64data]
               | _, _ => [TextPart (turn_prompt t)]
               end.
Proof.
  intros Ha Hs. unfold tryBlock. rewrite Hs.
  destruct (turn_attachment t) as [a|]; [|eexists; split; reflexivity].
  destruct (fileToBase64 env) as [d|]; [eexists; split; reflexivity|].
  destruct Ha as [Ha|Ha]; [discriminate | congruence].
Qed.

(** C4. When the stream of a turn runs to its end, the stage becomes
    [awaiting_critique] if the turn is not a meta-question, the mode is
    normal, and the whole response holds "[Draft]" and not "[Final Output]";
    in every other case it becomes [awaiting_task]. *)
Theorem completed_turn_stage
  (st : App) (env : TurnEnv) (text prompt : jsstring) (chunks : list Chunk) :
  acceptedText st = Some text ->
  finalPromptToServer st text = Some prompt ->
  turnCompletes st env chunks ->
  exists st',
    handleSendMessage st env = Settled st' 1
    /\ isLoading st' = false
    /\ stage st'
       = if negb (isMetaQuestion (stage st) text) && negb (chainMode st)
            && includes (lit "[Draft]") (streamText chunks)
            && negb (includes (lit "[Final Output]") (streamText chunks))
         then awaiting_critique else awaiting_task.
Proof.
  intros Ha Hp [Hatt Hs].
  destruct (startTurn_inFlight st env text prompt Ha Hp)
    as (t & st2 & Hst & Ht & _).
  unfold handleSendMessage. rewrite Hst.
  destruct (tryBlock_completes t env st2 chunks) as (parts & E & _);
    [subst t; exact Hatt | exact Hs |].
  rewrite E. eexists. split; [reflexivity|]. split; [reflexivity|].
  cbn [stage setIsLoading onComplete setStage]. rewrite streamLoop_text.
  cbn [fullResponseText app]. unfold completedStage. subst t.
  cbn [turn_meta turn_chain].
  destruct (isMetaQuestion (stage st) text), (chainMode st),
    (includes (lit "[Draft]") (streamText chunks)),
    (includes (lit "[Final Output]") (streamText chunks)); reflexivity.
Qed.

(** Every way a turn fails (the attachment cannot be read, the call
    rejects or the stream throws on the way) ends alike: the handler settles
    with the stage back at [awaiting_task] and loading off, after at most one
    call of the model; the last message of the active session is the AI
    message of the turn and its content field holds the error text. *)
Theorem failed_turn_recovers
  (st : App) (env : TurnEnv) (text prompt : jsstring) :
  acceptedText st = Some text ->
  finalPromptToServer st text = Some prompt ->
  turnFails st env ->
  exists st' calls,
    handleSendMessage st env = Settled st' calls
    /\ stage st' = awaiting_task
    /\ isLoading st' = false
    /\ (calls <= 1)%nat
    /\ exists s s' m,
         activeSession st = Some s
         /\ activeSession st' = Some s'
         /\ messages s'
            = messages s ++ [userMessage env text (pending st); m]
         /\ author m = ai
         /\ msg_id m = (clock2 env + 1)%Z
         /\ msg_content m = errorText.
Proof.
  intros Ha Hp Hfail.
  destruct (startTurn_inFlight st env text prompt Ha Hp)
    as (t & st2 & Hst & Ht & Hact & _ & _ & Htr).
  unfold handleSendMessage. rewrite Hst.
  destruct (tryBlock_fails t env st2) as (chunks & calls & E & Hc).
  { subst t. exact Hfail. }
  rewrite E. eexists; exists calls.
  split; [reflexivity|]. split; [reflexivity|]. split; [reflexivity|].
  split; [exact Hc|].
  destruct (acceptedText_active st text Ha) as [s Hs].
  assert (Hts : turn_session t = activeSessionId st) by (subst t; reflexivity).
  pose proof (streamLoop_tracks env text (pending st) t (sessions st) chunks
                (mkProgress [] [] st2)) as Hloop.
  rewrite Hts in Hloop. specialize (Hloop Htr).
  set (X := during (streamLoop t chunks (mkProgress [] [] st2))) in *.
  assert (Hfin : tracks (activeSessionId st)
            (fun s s' => exists m,
                 author m = ai /\ msg_id m = (clock2 env + 1)%Z
                 /\ msg_content m = errorText
                 /\ messages s'
                    = messages s ++ [userMessage env text (pending st); m])
            (sessions st)
            (onActive (activeSessionId st)
               (fun s => withMessages
                           (overwriteLast (withContent errorText) (messages s))
                           s)
               (sessions X))).
  { eapply tracks_step; [|exact Hloop].
    intros x x' (_ & _ & _ & m & Hm1 & Hm2 & Hm3). split; [reflexivity|].
    exists (withContent errorText m). repeat split; auto.
    simpl. rewrite Hm3.
    change (messages x ++ [userMessage env text (pending st); m])
      with (messages x ++ [userMessage env text (pending st)] ++ [m]).
    rewrite app_assoc, overwriteLast_snoc, Hm1, <- app_assoc. reflexivity. }
  unfold activeSession in Hs.
  destruct (tracks_find _ _ _ _ s Hfin Hs) as (s' & Hf' & m & M1 & M2 & M3 & M4).
  exists s, s', m. split; [exact Hs|]. split.
  - unfold activeSession.
    cbn [activeSessionId sessions setIsLoading onError setStage setSessions].
    unfold X at 1. rewrite streamLoop_active. cbn [during].
    rewrite Hact, Hts. exact Hf'.
  - repeat split; assumption.
Qed.

(** C8. Along a turn the model exchange history of every session stays as
    it was: when the turn enters its [try] block, after any number of chunks
    of any stream, and when the turn fails. Only a stream that has run to
    its end appends the user and model entries of the turn, to the active
    session. *)
Theorem history_only_after_stream_end
  (st : App) (env : TurnEnv) (text prompt : jsstring) :
  acceptedText st = Some text ->
  finalPromptToServer st text = Some prompt ->
  exists t st2,
    startTurn st env = InFlight t st2
    /\ map chatHistory (sessions st2) = map chatHistory (sessions st)
    /\ (forall chunks k,
          map chatHistory (sessions (midStream t chunks k st2))
          = map chatHistory (sessions st))
    /\ (turnFails st env ->
        exists st' calls,
          handleSendMessage st env = Settled st' calls
          /\ map chatHistory (sessions st') = map chatHistory (sessions st))
    /\ (forall chunks,
          turnCompletes st env chunks ->
          exists st',
            handleSendMessage st env = Settled st' 1
            /\ map chatHistory (sessions st')
               = map (fun s =>
                        if str_eqb (id s) (activeSessionId st)
                        then chatHistory s ++
                             [mkEntry (lit "user") (userParts st env prompt);
                              mkEntry (lit "model")
                                [TextPart (streamText chunks)]]
                        else chatHistory s)
                   (sessions st)).
Proof.
  intros Ha Hp.
  destruct (startTurn_inFlight st env text prompt Ha Hp)
    as (t & st2 & Hst & Ht & Hact & _ & _ & Htr).
  assert (Hts : turn_session t = activeSessionId st) by (subst t; reflexivity).
  assert (Hloop : forall chunks,
             tracks (activeSessionId st) (inFlight env text (pending st))
               (sessions st)
               (sessions (during (streamLoop t chunks (mkProgress [] [] st2))))).
  { intros chunks.
    pose proof (streamLoop_tracks env text (pending st) t (sessions st) chunks
                  (mkProgress [] [] st2)) as H.
    rewrite Hts in H. exact (H Htr). }
  assert (Hkeep : forall l',
             tracks (activeSessionId st) (inFlight env text (pending st))
               (sessions st) l' ->
             map chatHistory l' = map chatHistory (sessions st)).
  { intros l'. apply tracks_map; [|reflexivity].
    intros s s' _ (_ & H & _). exact H. }
  exists t, st2. split; [exact Hst|]. split; [exact (Hkeep _ Htr)|].
  split; [|split].
  - intros chunks k. unfold midStream. apply Hkeep, Hloop.
  - intros Hfail. unfold handleSendMessage. rewrite Hst.
    destruct (tryBlock_fails t env st2) as (chunks & calls & E & _).
    { subst t. exact Hfail. }
    rewrite E. eexists; exists calls. split; [reflexivity|].
    cbn [sessions setIsLoading onError setStage setSessions]. rewrite Hts.
    eapply (tracks_map _ (fun s s' => chatHistory s' = chatHistory s)).
    + intros s s' _ H. exact H.
    + reflexivity.
    + eapply tracks_step; [|exact (Hloop chunks)].
      intros s s' (_ & H & _). split; [reflexivity | exact H].
  - intros chunks [Hatt Hs]. unfold handleSendMessage. rewrite Hst.
    destruct (tryBlock_completes t env st2 chunks) as (parts & E & Hparts);
      [subst t; exact Hatt | exact Hs |].
    rewrite E. eexists. split; [reflexivity|].
    cbn [sessions setIsLoading onComplete setStage setSessions]. rewrite Hts.
    rewrite streamLoop_text. cbn [fullResponseText app].
    assert (Hp' : parts = userParts st env prompt).
    { rewrite Hparts. subst t. cbn [turn_attachment turn_prompt].
      unfold userParts. reflexivity. }
    rewrite Hp'.
    eapply (tracks_map _
              (fun s s' =>
                 chatHistory s'
                 = chatHistory s ++
                   [mkEntry (lit "user") (userParts st env prompt);
                    mkEntry (lit "model") [TextPart (streamText chunks)]])).
    + intros s s' Heq H. cbv beta. rewrite Heq. exact H.
    + intros s Hne. cbv beta. rewrite Hne. reflexivity.
    + eapply tracks_step; [|exact (Hloop chunks)].
      intros s s' (_ & H & _). split; [reflexivity|].
      cbn [chatHistory withNameAndHistory]. rewrite H. reflexivity.
Qed.

Lemma completed_turn_stage_witness :
  exists st',
    handleSendMessage sampleApp sampleEnvEnds = Settled st' 1
    /\ isLoading st' = false
    /\ stage st' = awaiting_critique.
Proof.
  refine (completed_turn_stage sampleApp sampleEnvEnds
            (lit "Summarise this.") samplePrompt sampleChunks _ _ _).
  - vm_compute; reflexivity.
  - vm_compute; reflexivity.
  - split; [left; reflexivity | reflexivity].
Defined.

Lemma failed_turn_recovers_witness :
  exists st' calls,
    handleSendMessage sampleApp sampleEnvThrows = Settled st' calls
    /\ stage st' = awaiting_task
    /\ isLoading st' = false
    /\ (calls <= 1)%nat
    /\ exists s s' m,
         activeSession sampleApp = Some s
         /\ activeSession st' = Some s'
         /\ messages s'
            = messages s
              ++ [userMessage sampleEnvThrows (lit "Summarise this.") None; m]
         /\ author m = ai
         /\ msg_id m = 1001%Z
         /\ msg_content m = errorText.
Proof.
  refine (failed_turn_recovers sampleApp sampleEnvThrows
            (lit "Summarise this.") samplePrompt _ _ _).
  - vm_compute; reflexivity.
  - vm_compute; reflexivity.
  - right; right. exists sampleChunks. reflexivity.
Defined.

Lemma history_only_after_stream_end_witness :
  exists t st2,
    startTurn sampleApp sampleEnvThrows = InFlight t st2
    /\ map chatHistory (sessions st2) = map chatHistory (sessions sampleApp)
    /\ (forall chunks k,
          map chatHistory (sessions (midStream t chunks k st2))
          = map chatHistory (sessions sampleApp))
    /\ (turnFails sampleApp sampleEnvThrows ->
        exists st' calls,
          handleSendMessage sampleApp sampleEnvThrows = Settled st' calls
          /\ map chatHistory (sessions st')
             = map chatHistory (sessions sampleApp))
    /\ (forall chunks,
          turnCompletes sampleApp sampleEnvThrows chunks ->
          exists st',
            handleSendMessage sampleApp sampleEnvThrows = Settled st' 1
            /\ map chatHistory (sessions st')
               = map (fun s =>
                        if str_eqb (id s) (activeSessionId sampleApp)
                        then chatHistory s ++
                             [mkEntry (lit "user")
                                (userParts sampleApp sampleEnvThrows
                                   samplePrompt);
                              mkEntry (lit "model")
                                [TextPart (streamText chunks)]]
                        else chatHistory s)
                   (sessions sampleApp)).
Proof.
  refine (history_only_after_stream_end sampleApp sampleEnvThrows
            (lit "Summarise this.") samplePrompt _ _).
  - vm_compute; reflexivity.
  - vm_compute; reflexivity.
Defined.

(** ** Start-up *)

Lemma savedRecord_spec (br : Browser) (saved activeId : jsstring) :
  savedRecord br = Some (saved, activeId) <->
  zero_sessions br = Some saved /\ zero_active_session_id br = Some activeId
  /\ saved <> [] /\ activeId <> [].
Proof.
  unfold savedRecord.
  destruct (zero_sessions br) as [s|], (zero_active_session_id br) as [a|];
    try (split; [discriminate | intros (H1 & H2 & _); discriminate]).
  destruct s as [|x s], a as [|y a]; simpl;
    try (split; [discriminate | intros (H1 & H2 & H3 & H4); congruence]).
  split.
  - intros [= <- <-]. repeat split; discriminate.
  - intros (H1 & H2 & _). congruence.
Qed.

(** C3, what the code does. With every source fetched and the client
    built, a saved record that [JSON.parse] rejects takes [initApp] into its
    [catch] block: the store becomes the single synthetic error session, the
    stage is [error], and the saved record stays in [localStorage]. No fresh
    session is created. *)
Theorem initApp_corrupt_record_error_state
  (JSON_parse : jsstring -> option (list Session))
  (env : InitEnv) (st : App) (br : Browser)
  (saved activeId : jsstring) (sources : SourceCode) :
  fetchAll (fetchText env) filesToFetch = Some sources ->
  genAI env = true ->
  savedRecord br = Some (saved, activeId) ->
  JSON_parse saved = None ->
  stage (fst (initApp JSON_parse env (st, br))) = error
  /\ sessions (fst (initApp JSON_parse env (st, br)))
     = [errorSession (errorClock env)]
  /\ activeSessionId (fst (initApp JSON_parse env (st, br)))
     = lit "error_session"
  /\ isLoading (fst (initApp JSON_parse env (st, br))) = false
  /\ snd (initApp JSON_parse env (st, br)) = br.
Proof.
  intros Hf Hg Hs Hp. unfold initApp, initTry.
  rewrite Hf, Hg, Hs, Hp. cbn. repeat split.
Qed.

Lemma initApp_corrupt_record_error_state_witness :
  stage (fst (initApp sampleParse sampleInitEnv (initialApp, corruptBrowser)))
  = error
  /\ sessions (fst (initApp sampleParse sampleInitEnv
                      (initialApp, corruptBrowser)))
     = [errorSession 6000]
  /\ activeSessionId (fst (initApp sampleParse sampleInitEnv
                             (initialApp, corruptBrowser)))
     = lit "error_session"
  /\ isLoading (fst (initApp sampleParse sampleInitEnv
                       (initialApp, corruptBrowser))) = false
  /\ snd (initApp sampleParse sampleInitEnv (initialApp, corruptBrowser))
     = corruptBrowser.
Proof.
  refine (initApp_corrupt_record_error_state sampleParse sampleInitEnv
            initialApp corruptBrowser (lit "[{") (lit "session_100")
            _ _ _ _ _).
  - vm_compute; reflexivity.
  - reflexivity.
  - vm_compute; reflexivity.
  - vm_compute; reflexivity.
Defined.

(** The other copy's [loadSessions] on the same record: both keys are
    removed and the caller is told that nothing was loaded. *)
Lemma loadSessions_v2_discards
  (JSON_parse : jsstring -> option (list Session))
  (st : App) (br : Browser) (saved activeId : jsstring) :
  savedRecord br = Some (saved, activeId) ->
  JSON_parse saved = None ->
  loadSessions_v2 JSON_parse (st, br)
  = (false, (st, mkBrowser None None (reloaded br))).
Proof.
  intros Hs Hp. unfold loadSessions_v2. now rewrite Hs, Hp.
Qed.

(** ** Redaction *)


Lemma startsWith_prefix (p s : jsstring) :
  startsWith p s = true <-> exists t, s = p ++ t.
Proof.
  revert s; induction p as [|x p IH]; intros s; simpl.
  - split; [intros _; now exists s | reflexivity].
  - destruct s as [|y s].
    + split; [discriminate | intros [t Ht]; discriminate].
    + rewrite andb_true_iff, N.eqb_eq, IH. split.
      * intros [-> [t ->]]. now exists t.
      * intros [t [= -> ->]]. split; [reflexivity | now exists t].
Qed.

Lemma includes_occurs (p s : jsstring) :
  includes p s = true <-> exists a b, s = a ++ p ++ b.
Proof.
  induction s as [|y s IH]; simpl.
  - rewrite orb_false_r, startsWith_prefix. split.
    + intros [t Ht]. exists [], t. exact Ht.
    + intros (a & b & H). destruct a; [now exists b|discriminate].
  - rewrite orb_true_iff, startsWith_prefix, IH. split.
    + intros [[t Ht]|(a & b & H)].
      * exists [], t. exact Ht.
      * exists (y :: a), b. now rewrite H.
    + intros (a & b & H). destruct a as [|z a].
      * left. now exists b.
      * right. injection H as _ H. now exists a, b.
Qed.







Lemma redact_skip (c : N) (r : jsstring) :
  startsWith OPEN (c :: r) = false -> redact (c :: r) = c :: redact r.
Proof. intros H. cbn [redact]. now rewrite H. Qed.


(** ** Encoding *)

Ltac ndiv := zify; Z.to_euclidean_division_equations; lia.

Ltac decide_tests :=
  repeat match goal with
    | |- context [N.ltb ?a ?b] =>
        destruct (N.ltb_spec a b); try (exfalso; ndiv)
    | |- context [N.leb ?a ?b] =>
        destruct (N.leb_spec a b); try (exfalso; ndiv)
    | |- context [N.eqb ?a ?b] =>
        destruct (N.eqb_spec a b); try (exfalso; ndiv)
    end.

Lemma b64val_b64char (n : N) : (n < 64)%N -> b64val (b64char n) = Some n.
Proof.
  intros H. unfold b64char.
  destruct (N.ltb_spec n 26); [|destruct (N.ltb_spec n 52);
    [|destruct (N.ltb_spec n 62); [|destruct (N.eqb_spec n 62)]]];
    unfold b64val; decide_tests; cbn [andb]; f_equal; lia.
Qed.

Lemma b64char_not_pad (n : N) : (n < 64)%N -> N.eqb (b64char n) PAD = false.
Proof.
  intros H. apply N.eqb_neq. unfold b64char, PAD.
  destruct (N.ltb_spec n 26); [|destruct (N.ltb_spec n 52);
    [|destruct (N.ltb_spec n 62); [|destruct (N.eqb_spec n 62)]]]; lia.
Qed.

Lemma atob_base64_fuel (n : nat) (l : list N) :
  (List.length l <= n)%nat ->
  Forall (fun c => (c < 256)%N) l ->
  atob (base64 l) = Some l.
Proof.
  revert l; induction n as [|n IH]; intros l Hl Hb.
  - destruct l; [reflexivity | simpl in Hl; lia].
  - destruct l as [|a [|b [|c r]]]; [reflexivity| | |].
    + inversion Hb as [|? ? Ha _]; subst.
      cbn [base64 atob].
      rewrite !b64val_b64char by ndiv. rewrite N.eqb_refl. cbn [andb].
      do 2 f_equal. ndiv.
    + inversion Hb as [|? ? Ha Hb']; subst.
      inversion Hb' as [|? ? Hb1 _]; subst.
      cbn [base64 atob].
      rewrite !b64val_b64char by ndiv.
      rewrite (b64char_not_pad ((b mod 16) * 4)) by ndiv.
      rewrite N.eqb_refl. cbn [andb].
      f_equal. f_equal; [ndiv|]. f_equal. ndiv.
    + inversion Hb as [|? ? Ha Hb']; subst.
      inversion Hb' as [|? ? Hb1 Hb'']; subst.
      inversion Hb'' as [|? ? Hc Hr]; subst.
      cbn [base64 atob app].
      rewrite !b64val_b64char by ndiv.
      rewrite (b64char_not_pad ((b mod 16) * 4 + c / 64)) by ndiv.
      rewrite (b64char_not_pad (c mod 64)) by ndiv.
      cbn [andb].
      rewrite IH by (auto; simpl in Hl; lia).
      cbn [app]. f_equal. f_equal; [ndiv|]. f_equal; [ndiv|]. f_equal. ndiv.
Qed.

(** Base64 round trip, on octets. *)
Lemma atob_base64 (l : list N) :
  Forall (fun c => (c < 256)%N) l -> atob (base64 l) = Some l.
Proof. apply (atob_base64_fuel (List.length l)). lia. Qed.

Lemma utf8_octets_bytes (k : N) :
  (k < 1114112)%N -> Forall (fun c => (c < 256)%N) (utf8_octets k).
Proof.
  intros H. unfold utf8_octets.
  destruct (N.ltb_spec k 128); [|destruct (N.ltb_spec k 2048);
    [|destruct (N.ltb_spec k 65536)]];
    repeat constructor; ndiv.
Qed.

Lemma surrogate_pair_code (c d : N) :
  isHighSurrogate c = true -> isLowSurrogate d = true ->
  (65536 <= 65536 + (c - 55296) * 1024 + (d - 56320) < 1114112)%N.
Proof.
  unfold isHighSurrogate, isLowSurrogate.
  rewrite !andb_true_iff, !N.leb_le, !N.ltb_lt. lia.
Qed.

Lemma Some_inj {A} (a b : A) : Some a = Some b -> a = b.
Proof. congruence. Qed.

Lemma utf8_cons (c : N) (r : jsstring) :
  utf8 (c :: r)
  = if isHighSurrogate c then
      match r with
      | d :: r' =>
          if isLowSurrogate d then
            match utf8 r' with
            | Some t =>
                Some (utf8_octets
                        (65536 + (c - 55296) * 1024 + (d - 56320))%N ++ t)
            | None => None
            end
          else None
      | [] => None
      end
    else if isLowSurrogate c then None
    else if (65536 <=? c)%N then None
    else match utf8 r with
         | Some t => Some (utf8_octets c ++ t)
         | None => None
         end.
Proof. reflexivity. Qed.

Lemma utf8_bytes_fuel (n : nat) (s : jsstring) (b : list N) :
  (List.length s <= n)%nat ->
  utf8 s = Some b -> Forall (fun c => (c < 256)%N) b.
Proof.
  revert s b; induction n as [|n IH]; intros s b Hl.
  - destruct s; [intros [= <-]; constructor | simpl in Hl; lia].
  - destruct s as [|c r]; [intros [= <-]; constructor|].
    rewrite utf8_cons. destruct (isHighSurrogate c) eqn:Eh.
    + destruct r as [|d r']; [discriminate|].
      destruct (isLowSurrogate d) eqn:El; [|discriminate].
      destruct (utf8 r') as [t|] eqn:Et; [|discriminate].
      intros E%Some_inj; subst b. apply Forall_app. split.
      * apply utf8_octets_bytes. apply (surrogate_pair_code c d Eh El).
      * apply (IH r' t); [simpl in Hl; lia | exact Et].
    + destruct (isLowSurrogate c); [discriminate|].
      destruct (N.leb_spec 65536 c); [discriminate|].
      destruct (utf8 r) as [t|] eqn:Et; [|discriminate].
      intros E%Some_inj; subst b. apply Forall_app. split.
      * apply utf8_octets_bytes. lia.
      * apply (IH r t); [simpl in Hl; lia | exact Et].
Qed.

Lemma utf8_bytes (s : jsstring) (b : list N) :
  utf8 s = Some b -> Forall (fun c => (c < 256)%N) b.
Proof. apply (utf8_bytes_fuel (List.length s)). lia. Qed.

Lemma utf8_decode_unit (c : N) (t : list N) :
  (c < 65536)%N -> isHighSurrogate c = false -> isLowSurrogate c = false ->
  utf8_decode (utf8_octets c ++ t)
  = match utf8_decode t with Some u => Some (c :: u) | None => None end.
Proof.
  intros Hc Hh Hl. unfold isHighSurrogate, isLowSurrogate in *.
  unfold utf8_octets.
  destruct (N.ltb_spec c 128); [|destruct (N.ltb_spec c 2048);
    [|destruct (N.ltb_spec c 65536); [|lia]]];
    cbn [app utf8_decode]; unfold isContinuation.
  - decide_tests. reflexivity.
  - decide_tests. cbn [andb negb].
    destruct (utf8_decode t); [|reflexivity].
    replace ((192 + c / 64 - 192) * 64 + (128 + c mod 64 - 128))%N with c
      by ndiv.
    unfold code_units. decide_tests. reflexivity.
  - decide_tests. cbn [andb negb].
    destruct (utf8_decode t); [|reflexivity].
    replace ((224 + c / 4096 - 224) * 4096 + (128 + (c / 64) mod 64 - 128) * 64
             + (128 + c mod 64 - 128))%N with c by ndiv.
    unfold code_units. decide_tests. reflexivity.
Qed.

Lemma utf8_decode_pair (c d : N) (t : list N) :
  isHighSurrogate c = true -> isLowSurrogate d = true ->
  utf8_decode (utf8_octets (65536 + (c - 55296) * 1024 + (d - 56320)) ++ t)
  = match utf8_decode t with Some u => Some (c :: d :: u) | None => None end.
Proof.
  intros Hh Hl. pose proof (surrogate_pair_code c d Hh Hl) as Hk.
  unfold isHighSurrogate, isLowSurrogate in *.
  rewrite !andb_true_iff, !N.leb_le, !N.ltb_lt in Hh, Hl.
  remember (65536 + (c - 55296) * 1024 + (d - 56320))%N as k eqn:Ek.
  unfold utf8_octets.
  destruct (N.ltb_spec k 128); [lia|]. destruct (N.ltb_spec k 2048); [lia|].
  destruct (N.ltb_spec k 65536); [lia|].
  cbn [app utf8_decode]; unfold isContinuation.
  decide_tests. cbn [andb negb].
  destruct (utf8_decode t); [|reflexivity].
  replace ((240 + k / 262144 - 240) * 262144
           + (128 + (k / 4096) mod 64 - 128) * 4096
           + (128 + (k / 64) mod 64 - 128) * 64 + (128 + k mod 64 - 128))%N
    with k by ndiv.
  unfold code_units. decide_tests.
  replace (55296 + (k - 65536) / 1024)%N with c by ndiv.
  replace (56320 + (k - 65536) mod 1024)%N with d by ndiv.
  reflexivity.
Qed.

Lemma utf8_roundtrip_fuel (n : nat) (s : jsstring) (b : list N) :
  (List.length s <= n)%nat ->
  utf8 s = Some b -> utf8_decode b = Some s.
Proof.
  revert s b; induction n as [|n IH]; intros s b Hl.
  - destruct s; [intros [= <-]; reflexivity | simpl in Hl; lia].
  - destruct s as [|c r]; [intros [= <-]; reflexivity|].
    rewrite utf8_cons. destruct (isHighSurrogate c) eqn:Eh.
    + destruct r as [|d r']; [discriminate|].
      destruct (isLowSurrogate d) eqn:El; [|discriminate].
      destruct (utf8 r') as [t|] eqn:Et; [|discriminate].
      intros E%Some_inj; subst b. rewrite utf8_decode_pair by assumption.
      rewrite (IH r' t) by (auto; simpl in Hl; lia). reflexivity.
    + destruct (isLowSurrogate c) eqn:El; [discriminate|].
      destruct (N.leb_spec 65536 c); [discriminate|].
      destruct (utf8 r) as [t|] eqn:Et; [|discriminate].
      intros E%Some_inj; subst b. rewrite utf8_decode_unit by assumption.
      rewrite (IH r t) by (auto; simpl in Hl; lia). reflexivity.
Qed.

(** UTF-8 round trip. *)
Lemma utf8_roundtrip (s : jsstring) (b : list N) :
  utf8 s = Some b -> utf8_decode b = Some s.
Proof. apply (utf8_roundtrip_fuel (List.length s)). lia. Qed.

(** What the prompt carries for a file decodes to the file's text. *)
Lemma decode_encodeContent (text blob : jsstring) :
  encodeContent text = Some blob -> decodeContent blob = Some text.
Proof.
  unfold encodeContent, decodeContent, btoa.
  destruct (utf8 text) as [octets|] eqn:Eu; [|discriminate].
  destruct (forallb _ octets); [|discriminate].
  intros [= <-]. rewrite atob_base64 by (eapply utf8_bytes; eauto).
  now apply utf8_roundtrip.
Qed.

(** Encoding fails only on a text that is not well-formed UTF-16. *)
Lemma encodeContent_defined (text : jsstring) :
  utf8 text <> None -> exists blob, encodeContent text = Some blob.
Proof.
  unfold encodeContent, btoa. destruct (utf8 text) as [octets|] eqn:Eu;
    [|congruence].
  intros _. pose proof (utf8_bytes _ _ Eu) as Hb.
  replace (forallb (fun c => (c <? 256)%N) octets) with true.
  - eexists; reflexivity.
  - symmetry. apply forallb_forall. rewrite Forall_forall in Hb.
    intros x Hx. apply N.ltb_lt. auto.
Qed.

























(* ================================================================== *)
(** * Part III. Further properties of the same code                     *)
(* ================================================================== *)

(** ** Section parser: what the sections look like *)

Lemma trimStart_In (x : N) (s : jsstring) : In x (trimStart s) -> In x s.
Proof.
  induction s as [|c r IH]; simpl; [tauto|].
  destruct (isWhiteSpace c); simpl; auto.
Qed.

Lemma trimStart_snoc (a : jsstring) (c : N) :
  isWhiteSpace c = false -> trimStart (a ++ [c]) = trimStart a ++ [c].
Proof.
  intros Hc. induction a as [|x a IH]; simpl.
  - now rewrite Hc.
  - destruct (isWhiteSpace x); [exact IH | reflexivity].
Qed.

Lemma trimStart_fixed (s : jsstring) :
  match s with [] => True | c :: _ => isWhiteSpace c = false end ->
  trimStart s = s.
Proof. destruct s as [|c r]; simpl; [reflexivity|]. now intros ->. Qed.

Lemma trimStart_head (s : jsstring) :
  match trimStart s with [] => True | c :: _ => isWhiteSpace c = false end.
Proof.
  induction s as [|c r IH]; simpl; [exact I|].
  destruct (isWhiteSpace c) eqn:E; [exact IH | exact E].
Qed.

Lemma trimStart_idem (s : jsstring) : trimStart (trimStart s) = trimStart s.
Proof. apply trimStart_fixed, trimStart_head. Qed.

Lemma trimEnd_idem (s : jsstring) : trimEnd (trimEnd s) = trimEnd s.
Proof. unfold trimEnd. now rewrite rev_involutive, trimStart_idem. Qed.

Lemma trimEnd_head (s : jsstring) :
  match s with [] => True | c :: _ => isWhiteSpace c = false end ->
  match trimEnd s with [] => True | c :: _ => isWhiteSpace c = false end.
Proof.
  destruct s as [|c r]; [intros _; exact I|]. intros Hc.
  unfold trimEnd. cbn [rev]. rewrite (trimStart_snoc _ _ Hc), rev_app_distr.
  exact Hc.
Qed.

(** [trim] does nothing to a trimmed string. *)
Lemma trim_idem (s : jsstring) : trim (trim s) = trim s.
Proof.
  unfold trim at 1.
  rewrite (trimStart_fixed (trim s)) by apply trimEnd_head, trimStart_head.
  apply trimEnd_idem.
Qed.

Lemma trim_In (x : N) (s : jsstring) : In x (trim s) -> In x s.
Proof.
  unfold trim, trimEnd. intros H. apply in_rev, trimStart_In in H.
  apply in_rev in H. now apply trimStart_In.
Qed.

Lemma title_group_no_bracket (s t rest : jsstring) :
  title_group s = Some (t, rest) -> ~ In RBRACKET t.
Proof.
  revert t rest; induction s as [|c r IH]; intros t rest; simpl;
    [discriminate|].
  destruct (N.eqb_spec c RBRACKET).
  - intros [= <- _]. exact (fun H => H).
  - destruct (title_group r) as [[t' rest']|]; [|discriminate].
    intros [= <- _]. intros [H|H]; [congruence | exact (IH t' rest' eq_refl H)].
Qed.

Lemma match_at_title (s t c : jsstring) (len : nat) :
  match_at s = Some (t, c, len) -> ~ In RBRACKET t /\ (3 <= len)%nat.
Proof.
  unfold match_at. destruct s as [|x r]; [discriminate|].
  destruct (N.eqb x LBRACKET); [|discriminate].
  destruct (title_group r) as [[t' after]|] eqn:E; [|discriminate].
  destruct t' as [|y t']; [discriminate|].
  destruct (skip_space after) as [nws body].
  intros [= <- _ <-]. split.
  - exact (title_group_no_bracket _ _ _ E).
  - simpl. lia.
Qed.

(** X2. Every section the expression yields has a trimmed title without a
    closing bracket and a trimmed content. *)
Theorem sections_trimmed (skip : nat) (text : jsstring) (s : Section) :
  In s (exec_all skip text) ->
  trim (title s) = title s
  /\ trim (content s) = content s
  /\ ~ In RBRACKET (title s).
Proof.
  revert skip; induction text as [|x r IH]; intros skip; cbn [exec_all];
    [intros []|].
  destruct skip as [|k]; [|apply IH].
  destruct (match_at (x :: r)) as [[[t c] len]|] eqn:E; [|apply IH].
  intros [<-|H]; [|exact (IH _ H)].
  cbn [title content]. rewrite !trim_idem. repeat split.
  intros H. apply trim_In in H.
  exact (proj1 (match_at_title _ _ _ _ E) H).
Qed.

Lemma sections_trimmed_witness :
  trim (lit "Task") = lit "Task"
  /\ trim (lit "Write a poem.") = lit "Write a poem."
  /\ ~ In RBRACKET (lit "Task").
Proof.
  refine (sections_trimmed O sampleChainText
            (mkSection (lit "Task") (lit "Write a poem.")) _).
  vm_compute. right; left; reflexivity.
Defined.

(** ** Chain decomposition: the three members *)

Lemma task_fold (l : list Section) (cd : ChainData) :
  task (fold_left chain_step l cd)
  = match rev (filter isTask l) with
    | s :: _ => Some s
    | [] => task cd
    end.
Proof.
  revert cd; induction l as [|s l IH]; intros cd; cbn [fold_left filter];
    [reflexivity|].
  rewrite IH. unfold chain_step at 1.
  destruct (isTask s) eqn:Et.
  - cbn [rev task]. destruct (rev (filter isTask l)); reflexivity.
  - destruct (rev (filter isTask l)); [|reflexivity].
    destruct (isConstraints s); [destruct (constraints cd); reflexivity|].
    destruct (isRefined s); reflexivity.
Qed.

(** X4. In chain mode the refined answers are the "Refined Answer" sections in
    the order of the text, at least one; the task is the last section titled
    "Task", if any; the constraints member is absent without a
    constraints-kind section and otherwise titled "Constraints" whatever
    the title of the first such section was. *)
Theorem chain_members (text : jsstring) :
  isChainMode (parseResponse text) = true ->
  exists cd,
    data (parseResponse text) = Chain cd
    /\ refinedAnswers cd = filter isRefined (exec_all O text)
    /\ refinedAnswers cd <> []
    /\ task cd = match rev (filter isTask (exec_all O text)) with
                 | s :: _ => Some s
                 | [] => None
                 end
    /\ constraints cd
       = match filter isConstraints (exec_all O text) with
         | [] => None
         | c :: later =>
             Some (mkSection (lit "Constraints") (mergedContent c later))
         end.
Proof.
  intros H. destruct (parseResponse_chain text H) as [E Hex].
  exists (decompose (exec_all 0 text)). rewrite E. split; [reflexivity|].
  unfold decompose. rewrite refinedAnswers_fold, task_fold, constraints_fold.
  cbn [emptyChain refinedAnswers task constraints app].
  split; [reflexivity|]. split; [now apply existsb_filter_nonempty|].
  split; [reflexivity|].
  destruct (filter isConstraints (exec_all 0 text)) as [|c later];
    [reflexivity|].
  cbn [fold_left mergeStep]. now rewrite mergeStep_fold.
Qed.

Lemma chain_members_witness :
  exists cd,
    data (parseResponse sampleChainText) = Chain cd
    /\ refinedAnswers cd = filter isRefined (exec_all O sampleChainText)
    /\ refinedAnswers cd <> []
    /\ task cd = match rev (filter isTask (exec_all O sampleChainText)) with
                 | s :: _ => Some s
                 | [] => None
                 end
    /\ constraints cd
       = match filter isConstraints (exec_all O sampleChainText) with
         | [] => None
         | c :: later =>
             Some (mkSection (lit "Constraints") (mergedContent c later))
         end.
Proof.
  refine (chain_members sampleChainText _). vm_compute; reflexivity.
Defined.

(** ** Session store: ordering, deletion, start-up and persistence *)

Lemma sort_newest_first_fixed (l : list Session) :
  newestFirst l -> sort_newest_first l = l.
Proof.
  unfold newestFirst. induction 1 as [|x l Hl IH Hx]; [reflexivity|].
  cbn [sort_newest_first fold_right]. fold (sort_newest_first l).
  rewrite IH. destruct l as [|y l']; [reflexivity|].
  cbn [sort_insert]. inversion Hx as [|? ? Hy _]; subst.
  apply Z.leb_le in Hy. now rewrite Hy.
Qed.

(** X5. Drawing the session manager only rearranges the store: the array is a
    permutation of what it was, newest first, and drawing it again changes
    nothing more; the closed manager changes nothing. *)
Theorem render_modal_reorders_only (st : App) :
  (isSessionsModalOpen st = false -> renderSessionsModal st = st)
  /\ (isSessionsModalOpen st = true ->
      renderSessionsModal st = setSessions sort_newest_first st
      /\ Permutation (sessions st) (sessions (renderSessionsModal st))
      /\ newestFirst (sessions (renderSessionsModal st))
      /\ renderSessionsModal (renderSessionsModal st) = renderSessionsModal st).
Proof.
  unfold renderSessionsModal. split; intros H; rewrite H; [reflexivity|].
  split; [reflexivity|]. split; [apply sort_newest_first_Permutation|].
  split; [apply sort_newest_first_sorted|].
  cbn [isSessionsModalOpen setSessions]. rewrite H.
  unfold setSessions. cbn.
  now rewrite (sort_newest_first_fixed _ (sort_newest_first_sorted _)).
Qed.

Lemma render_modal_reorders_only_witness :
  renderSessionsModal sampleApp = setSessions sort_newest_first sampleApp
  /\ Permutation (sessions sampleApp) (sessions (renderSessionsModal sampleApp))
  /\ newestFirst (sessions (renderSessionsModal sampleApp))
  /\ renderSessionsModal (renderSessionsModal sampleApp)
     = renderSessionsModal sampleApp.
Proof.
  refine (proj2 (render_modal_reorders_only sampleApp) _). reflexivity.
Defined.

Lemma filter_oldestFirst (f : Session -> bool) (l : list Session) :
  oldestFirst l -> oldestFirst (filter f l).
Proof.
  unfold oldestFirst. induction 1 as [|y l Hl IH Hy]; simpl; [constructor|].
  destruct (f y); [|exact IH]. constructor; [exact IH|].
  rewrite Forall_forall in *. intros z Hz. apply filter_In in Hz as [Hz _].
  auto.
Qed.

(** X6. The handler by itself, on a store in creation order (as
    [createNewSession] builds it): deleting the active session promotes the
    oldest of the remaining sessions. *)
Theorem handler_alone_promotes_oldest
  (st : App) (br : Browser) (r : Session) :
  oldestFirst (sessions st) ->
  In r (sessions st) -> id r <> activeSessionId st ->
  exists p,
    In p (sessions st) /\ id p <> activeSessionId st
    /\ (forall q, In q (sessions st) -> id q <> activeSessionId st ->
                  (createdAt p <= createdAt q)%Z)
    /\ activeSessionId
         (fst (handleDeleteSession (activeSessionId st) (st, br)))
       = id p.
Proof.
  intros Hs Hr Hid.
  assert (Hmem : forall x, In x (filter (remains (activeSessionId st))
                                   (sessions st))
                           <-> In x (sessions st)
                               /\ id x <> activeSessionId st).
  { intros x. rewrite filter_In, remains_iff. tauto. }
  destruct (filter (remains (activeSessionId st)) (sessions st))
    as [|p others] eqn:Hf.
  - exfalso. apply (proj2 (Hmem r)). split; assumption.
  - rewrite (handleDeleteSession_active st br p others Hf).
    destruct (proj1 (Hmem p) (or_introl eq_refl)) as [Hp1 Hp2].
    exists p. split; [exact Hp1|]. split; [exact Hp2|]. split; [|reflexivity].
    intros q Hq Hqid.
    assert (Hso : oldestFirst (p :: others))
      by (rewrite <- Hf; now apply filter_oldestFirst).
    destruct (proj2 (Hmem q) (conj Hq Hqid)) as [->|Hqin]; [lia|].
    inversion Hso as [|? ? _ Hall]; subst. rewrite Forall_forall in Hall.
    exact (Hall q Hqin).
Qed.

Lemma handler_alone_promotes_oldest_witness :
  exists p,
    In p (sessions sampleApp) /\ id p <> activeSessionId sampleApp
    /\ (forall q, In q (sessions sampleApp) ->
                  id q <> activeSessionId sampleApp ->
                  (createdAt p <= createdAt q)%Z)
    /\ activeSessionId
         (fst (handleDeleteSession (activeSessionId sampleApp)
                 (sampleApp, emptyBrowser)))
       = id p.
Proof.
  refine (handler_alone_promotes_oldest sampleApp emptyBrowser
            (mkSession (lit "session_200") (lit "second") [] [] 200) _ _ _).
  - repeat constructor; simpl; lia.
  - right; left; reflexivity.
  - intros H; vm_compute in H; discriminate H.
Defined.

Lemma filter_none (f : Session -> bool) (l : list Session) :
  (forall s, In s l -> f s = false) -> filter f l = [].
Proof.
  induction l as [|x l IH]; intros H; simpl; [reflexivity|].
  rewrite (H x (or_introl eq_refl)). apply IH. intros s Hs. apply H.
  now right.
Qed.

(** X7. Start-up never leaves the engine initialising: loading is switched off
    and the stage is [awaiting_task], or it is [error] with the store made
    of the single synthetic error session; [localStorage] is not written. *)
Theorem initApp_settles
  (JSON_parse : jsstring -> option (list Session))
  (env : InitEnv) (st : App) (br : Browser) :
  isLoading (fst (initApp JSON_parse env (st, br))) = false
  /\ snd (initApp JSON_parse env (st, br)) = br
  /\ (stage (fst (initApp JSON_parse env (st, br))) = awaiting_task
      \/ (stage (fst (initApp JSON_parse env (st, br))) = error
          /\ sessions (fst (initApp JSON_parse env (st, br)))
             = [errorSession (errorClock env)]
          /\ activeSessionId (fst (initApp JSON_parse env (st, br)))
             = lit "error_session")).
Proof.
  unfold initApp. split; [reflexivity|]. split; [reflexivity|].
  destruct (initTry JSON_parse env br st) as [st1|st1] eqn:E.
  - left. unfold initTry in E.
    destruct (fetchAll (fetchText env) filesToFetch); [|discriminate].
    destruct (negb (genAI env)); [discriminate|].
    destruct (savedRecord br) as [[sv act]|].
    + destruct (JSON_parse sv); [|discriminate]. injection E as <-. reflexivity.
    + unfold createAndActivate in E. destruct (sendMessage env);
        [|discriminate]. injection E as <-. reflexivity.
  - right. repeat split.
Qed.

(** X8. Deleting the only session empties the store, removes both saved keys
    and reloads the page; the start-up that follows, finding nothing saved,
    creates one fresh session and makes it active, whatever [JSON.parse]
    would do. *)
Theorem delete_last_then_restart
  (JSON_parse : jsstring -> option (list Session))
  (env : InitEnv) (st : App) (br : Browser)
  (sessionId response : jsstring) (sources : SourceCode) :
  (forall s, In s (sessions st) -> id s = sessionId) ->
  fetchAll (fetchText env) filesToFetch = Some sources ->
  genAI env = true ->
  sendMessage env = Some response ->
  handleDeleteSession sessionId (st, br)
  = (setSessions (fun _ => []) st, mkBrowser None None true)
  /\ sessions (fst (initApp JSON_parse env
                      (initialApp, snd (handleDeleteSession sessionId (st, br)))))
     = [newSession response (initClock1 env) (initClock2 env)]
  /\ activeSessionId
       (fst (initApp JSON_parse env
               (initialApp, snd (handleDeleteSession sessionId (st, br)))))
     = lit "session_" ++ decimal (initClock1 env)
  /\ stage (fst (initApp JSON_parse env
                   (initialApp, snd (handleDeleteSession sessionId (st, br)))))
     = awaiting_task.
Proof.
  intros Hall Hf Hg Hs.
  assert (E : handleDeleteSession sessionId (st, br)
              = (setSessions (fun _ => []) st, mkBrowser None None true)).
  { unfold handleDeleteSession. fold (remains sessionId).
    rewrite filter_none; [reflexivity|].
    intros s Hin. unfold remains. rewrite (Hall s Hin), str_eqb_refl.
    reflexivity. }
  rewrite E. split; [reflexivity|]. cbn [snd].
  unfold initApp, initTry. rewrite Hf, Hg. cbn [negb savedRecord
    zero_sessions zero_active_session_id].
  unfold createAndActivate. rewrite Hs. repeat split.
Qed.

Lemma delete_last_then_restart_witness :
  handleDeleteSession (lit "session_100")
    (setSessions (firstn 1) sampleApp, savedBrowser)
  = (setSessions (fun _ => []) (setSessions (firstn 1) sampleApp),
     mkBrowser None None true)
  /\ sessions (fst (initApp sampleParse sampleInitEnv
                      (initialApp,
                       snd (handleDeleteSession (lit "session_100")
                              (setSessions (firstn 1) sampleApp,
                               savedBrowser)))))
     = [newSession
          (lit "ZERO Execution Engine initialized. Awaiting your first task.")
          5000 5000]
  /\ activeSessionId
       (fst (initApp sampleParse sampleInitEnv
               (initialApp,
                snd (handleDeleteSession (lit "session_100")
                       (setSessions (firstn 1) sampleApp, savedBrowser)))))
     = lit "session_" ++ decimal 5000
  /\ stage (fst (initApp sampleParse sampleInitEnv
                   (initialApp,
                    snd (handleDeleteSession (lit "session_100")
                           (setSessions (firstn 1) sampleApp, savedBrowser)))))
     = awaiting_task.
Proof.
  refine (delete_last_then_restart sampleParse sampleInitEnv
            (setSessions (firstn 1) sampleApp) savedBrowser
            (lit "session_100") _ _ _ _ _ _).
  - intros s [<-|[]]. reflexivity.
  - vm_compute; reflexivity.
  - reflexivity.
  - reflexivity.
Defined.

(** X9. A start-up that fails before the store is read (a source request
    rejects, or the client cannot be built) installs the error session, and
    the saving effect that follows writes it over whatever store was
    saved. *)
Theorem failed_startup_overwrites_saved
  (JSON_parse : jsstring -> option (list Session))
  (JSON_stringify : list Session -> jsstring)
  (env : InitEnv) (st : App) (br : Browser) :
  fetchAll (fetchText env) filesToFetch = None \/ genAI env = false ->
  snd (saveSessions JSON_stringify (initApp JSON_parse env (st, br)))
  = mkBrowser (Some (JSON_stringify [errorSession (errorClock env)]))
      (Some (lit "error_session")) (reloaded br).
Proof.
  intros H. unfold initApp, initTry.
  destruct (fetchAll (fetchText env) filesToFetch) as [sources|].
  - destruct H as [H|H]; [discriminate|]. rewrite H. reflexivity.
  - reflexivity.
Qed.

Lemma failed_startup_overwrites_saved_witness :
  snd (saveSessions sampleStringify
         (initApp sampleParseBack offlineInitEnv (initialApp, savedBrowser)))
  = mkBrowser (Some (sampleStringify [errorSession 6000]))
      (Some (lit "error_session")) false.
Proof.
  refine (failed_startup_overwrites_saved sampleParseBack sampleStringify
            offlineInitEnv initialApp savedBrowser _).
  left. reflexivity.
Defined.

(** X10. What the saving effect writes is what the next start-up loads: the
    same sessions and the same active id. The stage is not saved: the
    reloaded application awaits a task whatever the stage was. *)
Theorem saved_sessions_reload
  (JSON_parse : jsstring -> option (list Session))
  (JSON_stringify : list Session -> jsstring)
  (env : InitEnv) (st : App) (br : Browser) (sources : SourceCode) :
  sessions st <> [] ->
  activeSessionId st <> [] ->
  JSON_stringify (sessions st) <> [] ->
  JSON_parse (JSON_stringify (sessions st)) = Some (sessions st) ->
  fetchAll (fetchText env) filesToFetch = Some sources ->
  genAI env = true ->
  sessions (fst (initApp JSON_parse env
                   (initialApp, snd (saveSessions JSON_stringify (st, br)))))
  = sessions st
  /\ activeSessionId
       (fst (initApp JSON_parse env
               (initialApp, snd (saveSessions JSON_stringify (st, br)))))
     = activeSessionId st
  /\ stage (fst (initApp JSON_parse env
                   (initialApp, snd (saveSessions JSON_stringify (st, br)))))
     = awaiting_task.
Proof.
  intros Hs Ha Hj Hp Hf Hg.
  unfold saveSessions. destruct (sessions st) as [|s0 l] eqn:Es; [congruence|].
  apply truthy_nonempty in Ha. rewrite Ha. cbn [snd].
  unfold initApp, initTry. rewrite Hf, Hg. cbn [negb].
  unfold savedRecord. cbn [zero_sessions zero_active_session_id].
  apply truthy_nonempty in Hj. rewrite Hj, Ha. cbn [andb]. rewrite Hp.
  repeat split.
Qed.

Lemma saved_sessions_reload_witness :
  sessions (fst (initApp sampleParseBack sampleInitEnv
                   (initialApp,
                    snd (saveSessions sampleStringify
                           (sampleApp, emptyBrowser)))))
  = sessions sampleApp
  /\ activeSessionId
       (fst (initApp sampleParseBack sampleInitEnv
               (initialApp,
                snd (saveSessions sampleStringify (sampleApp, emptyBrowser)))))
     = activeSessionId sampleApp
  /\ stage (fst (initApp sampleParseBack sampleInitEnv
                   (initialApp,
                    snd (saveSessions sampleStringify
                           (sampleApp, emptyBrowser)))))
     = awaiting_task.
Proof.
  refine (saved_sessions_reload sampleParseBack sampleStringify sampleInitEnv
            sampleApp emptyBrowser _ _ _ _ _ _ _).
  - discriminate.
  - vm_compute; discriminate.
  - vm_compute; discriminate.
  - vm_compute; reflexivity.
  - vm_compute; reflexivity.
  - reflexivity.
Defined.

Lemma find_app_miss (f : Session -> bool) (l : list Session) (x : Session) :
  (forall s, In s l -> f s = false) -> f x = true ->
  find f (l ++ [x]) = Some x.
Proof.
  induction l as [|y l IH]; intros Hl Hx; simpl.
  - now rewrite Hx.
  - rewrite (Hl y (or_introl eq_refl)). apply IH; [|exact Hx].
    intros s Hs. apply Hl. now right.
Qed.

(** X11. [handleNewSession]: when the directive exchange answers, one session is
    appended after the existing ones, it becomes the active session (no
    older session bearing its id), the manager is closed and loading is
    off. When the exchange rejects, nothing catches it: the store is as it
    was and loading stays on. *)
Theorem handleNewSession_outcomes (env : InitEnv) (st : App) :
  aiReady st = true ->
  (forall response,
     sendMessage env = Some response ->
     (forall s, In s (sessions st) ->
                id s <> lit "session_" ++ decimal (initClock1 env)) ->
     exists st',
       handleNewSession env st = Completed st'
       /\ sessions st'
          = sessions st
            ++ [newSession response (initClock1 env) (initClock2 env)]
       /\ activeSession st'
          = Some (newSession response (initClock1 env) (initClock2 env))
       /\ isSessionsModalOpen st' = false
       /\ isLoading st' = false)
  /\ (sendMessage env = None ->
      handleNewSession env st = Threw (setIsLoading true st)).
Proof.
  intros Hai. unfold handleNewSession, createAndActivate. rewrite Hai.
  cbn [negb]. split.
  - intros response Hs Hfresh. rewrite Hs. eexists. split; [reflexivity|].
    split; [reflexivity|]. split; [|split; reflexivity].
    unfold activeSession. cbn. apply find_app_miss.
    + intros s Hin. apply str_eqb_neq. exact (Hfresh s Hin).
    + apply str_eqb_refl.
  - intros Hs. rewrite Hs. reflexivity.
Qed.

Lemma handleNewSession_outcomes_witness :
  exists st',
    handleNewSession sampleInitEnv sampleApp = Completed st'
    /\ sessions st'
       = sessions sampleApp
         ++ [newSession
               (lit "ZERO Execution Engine initialized. Awaiting your first task.")
               5000 5000]
    /\ activeSession st'
       = Some (newSession
                 (lit "ZERO Execution Engine initialized. Awaiting your first task.")
                 5000 5000)
    /\ isSessionsModalOpen st' = false
    /\ isLoading st' = false.
Proof.
  refine (proj1 (handleNewSession_outcomes sampleInitEnv sampleApp _) _ _ _).
  - reflexivity.
  - reflexivity.
  - intros s [<-|[<-|[<-|[]]]] H; vm_compute in H; discriminate H.
Defined.

Lemma fetchAll_keys (fetch : jsstring -> option jsstring)
  (files : list jsstring) (sc : SourceCode) :
  fetchAll fetch files = Some sc -> map fst sc = files.
Proof.
  revert sc; induction files as [|f files IH]; intros sc; simpl.
  - now intros [= <-].
  - destruct (fetch f); [|discriminate].
    destruct (fetchAll fetch files) as [o|]; [|discriminate].
    intros [= <-]. simpl. now rewrite (IH o).
Qed.

Lemma assign_keys (k v : jsstring) (o : SourceCode) :
  lookup k o <> None -> map fst (assign k v o) = map fst o.
Proof.
  induction o as [|[k' v'] o IH]; simpl; [congruence|].
  destruct (str_eqb k' k); simpl; [reflexivity|].
  intros H. now rewrite IH.
Qed.

(** X12. The source map that start-up builds holds the four files in fetch
    order, so the redaction step of a meta-question always finds
    [index.tsx] in it, and the redacted copy keeps the same files in the
    same order. *)
Theorem startup_sources_redactable
  (fetch : jsstring -> option jsstring) (sc : SourceCode) :
  fetchAll fetch filesToFetch = Some sc ->
  map fst sc = filesToFetch
  /\ exists src red,
       lookup (lit "index.tsx") sc = Some src
       /\ redactedSourceCode sc = Some red
       /\ map fst red = filesToFetch
       /\ lookup (lit "index.tsx") red = Some (redact src).
Proof.
  intros H. pose proof (fetchAll_keys _ _ _ H) as Hk. split; [exact Hk|].
  destruct sc as [|[k v] sc]; [discriminate|].
  injection Hk as Hk0 Hk1. subst k.
  exists v, (assign (lit "index.tsx") (redact v) ((lit "index.tsx", v) :: sc)).
  unfold redactedSourceCode. cbn [lookup]. rewrite str_eqb_refl.
  split; [reflexivity|]. split; [reflexivity|].
  cbn [assign]. rewrite str_eqb_refl. cbn [map fst lookup].
  rewrite str_eqb_refl, Hk1. split; reflexivity.
Qed.

Lemma startup_sources_redactable_witness :
  map fst [ (lit "index.tsx", lit "a"); (lit "index.css", lit "b");
            (lit "index.html", lit "c"); (lit "metadata.json", lit "d") ]
  = filesToFetch
  /\ exists src red,
       lookup (lit "index.tsx")
         [ (lit "index.tsx", lit "a"); (lit "index.css", lit "b");
           (lit "index.html", lit "c"); (lit "metadata.json", lit "d") ]
       = Some src
       /\ redactedSourceCode
            [ (lit "index.tsx", lit "a"); (lit "index.css", lit "b");
              (lit "index.html", lit "c"); (lit "metadata.json", lit "d") ]
          = Some red
       /\ map fst red = filesToFetch
       /\ lookup (lit "index.tsx") red = Some (redact src).
Proof.
  refine (startup_sources_redactable
            (fun f => if str_eqb f (lit "index.tsx") then Some (lit "a")
                      else if str_eqb f (lit "index.css") then Some (lit "b")
                      else if str_eqb f (lit "index.html") then Some (lit "c")
                      else Some (lit "d")) _ _).
  vm_compute; reflexivity.
Defined.

(** ** One turn: the transcript *)

Lemma tracks_In (activeId : jsstring) (P : Session -> Session -> Prop)
  (l l' : list Session) (s' : Session) :
  tracks activeId P l l' -> In s' l' ->
  exists s, In s l /\ id s' = id s
            /\ if str_eqb (id s) activeId then P s s' else s' = s.
Proof.
  unfold tracks. induction 1 as [|x x' l l' [Hid Hx] _ IH]; [intros []|].
  intros [<-|Hin].
  - exists x. split; [now left|]. split; assumption.
  - destruct (IH Hin) as (s & Hs & H). exists s. split; [now right | exact H].
Qed.

Lemma streamLoop_snoc (t : Turn) (chunks : list Chunk) (c : Chunk)
  (p : Progress) :
  streamLoop t (chunks ++ [c]) p = onChunk t (streamLoop t chunks p) c.
Proof. unfold streamLoop. now rewrite fold_left_app. Qed.

Lemma streamText_snoc (chunks : list Chunk) (c : Chunk) :
  streamText (chunks ++ [c]) = streamText chunks ++ chunk_text c.
Proof.
  unfold streamText. rewrite map_app, concat_app. simpl.
  now rewrite app_nil_r.
Qed.

Lemma lastGrounding_snoc (chunks : list Chunk) (c : Chunk) :
  lastGrounding (chunks ++ [c])
  = match groundingChunks c with
    | Some l => keepCitations l
    | None => lastGrounding chunks
    end.
Proof. unfold lastGrounding. now rewrite fold_left_app. Qed.

Lemma turnMessage_snoc (env : TurnEnv) (chunks : list Chunk) (c : Chunk) :
  turnMessage env (chunks ++ [c])
  = streamed (streamText (chunks ++ [c])) (lastGrounding (chunks ++ [c]))
      (turnMessage env chunks).
Proof. destruct chunks; reflexivity. Qed.

Lemma turnMessage_author (env : TurnEnv) (chunks : list Chunk) :
  author (turnMessage env chunks) = ai.
Proof. destruct chunks; reflexivity. Qed.

(** Only the session array moves during the stream. *)
Lemma streamLoop_frame (t : Turn) (chunks : list Chunk) (p : Progress) :
  exists l,
    during (streamLoop t chunks p) = setSessions (fun _ => l) (during p).
Proof.
  unfold streamLoop.
  revert p; induction chunks as [|c chunks IH]; intros p; cbn [fold_left].
  - exists (sessions (during p)). destruct (during p); reflexivity.
  - destruct (IH (onChunk t p c)) as [l ->]. exists l. reflexivity.
Qed.

(** The exact state along the stream: after the chunks received so far,
    the sessions bearing the active id hold their former log followed by the
    user message and the AI message built from those chunks. *)
Lemma streamLoop_exact (env : TurnEnv) (text : jsstring)
  (a : option Attachment) (t : Turn) (l : list Session) (st2 : App)
  (chunks : list Chunk) :
  tracks (turn_session t) (fun s s' => s' = turnSession env text a [] s) l
    (sessions st2) ->
  fullResponseText (streamLoop t chunks (mkProgress [] [] st2))
  = streamText chunks
  /\ liveCitations (streamLoop t chunks (mkProgress [] [] st2))
     = lastGrounding chunks
  /\ tracks (turn_session t)
       (fun s s' => s' = turnSession env text a chunks s) l
       (sessions (during (streamLoop t chunks (mkProgress [] [] st2)))).
Proof.
  intros H0. induction chunks as [|c chunks IH] using rev_ind.
  - repeat split. exact H0.
  - destruct IH as (Hf & Hc & Ht). rewrite streamLoop_snoc.
    set (p := streamLoop t chunks (mkProgress [] [] st2)) in *.
    assert (Ef : fullResponseText (onChunk t p c)
                 = streamText (chunks ++ [c]))
      by (cbn [onChunk fullResponseText]; now rewrite Hf, streamText_snoc).
    assert (Ec : liveCitations (onChunk t p c) = lastGrounding (chunks ++ [c]))
      by (cbn [onChunk liveCitations]; now rewrite Hc, lastGrounding_snoc).
    split; [exact Ef|]. split; [exact Ec|].
    cbn [onChunk fullResponseText liveCitations] in Ef, Ec.
    cbn [onChunk during sessions setSessions]. rewrite Ef, Ec.
    eapply tracks_step; [|exact Ht].
    intros s s' ->. split; [reflexivity|].
    unfold turnSession. cbn [messages withMessages].
    change (messages s ++ [userMessage env text a; turnMessage env chunks])
      with (messages s ++ [userMessage env text a] ++ [turnMessage env chunks]).
    rewrite app_assoc, overwriteLast_snoc, turnMessage_author, <- app_assoc.
    rewrite turnMessage_snoc. reflexivity.
Qed.

Lemma startTurn_exact (st : App) (env : TurnEnv) (text prompt : jsstring) :
  acceptedText st = Some text ->
  finalPromptToServer st text = Some prompt ->
  exists t st2,
    startTurn st env = InFlight t st2
    /\ t = mkTurn text (isMetaQuestion (stage st) text) prompt (pending st)
             (activeSessionId st) (chainMode st)
    /\ activeSessionId st2 = activeSessionId st
    /\ isLoading st2 = true
    /\ tracks (activeSessionId st)
         (fun s s' => s' = turnSession env text (pending st) [] s)
         (sessions st) (sessions st2).
Proof.
  intros Ha Hp. unfold startTurn. rewrite Ha, Hp.
  eexists; eexists. split; [reflexivity|]. split; [reflexivity|].
  split; [reflexivity|]. split; [reflexivity|].
  cbn [sessions clearInputs setSessions setStage setIsLoading].
  apply tracks_start. intros s. split; reflexivity.
Qed.

(** X13. While a turn is in flight, whatever part of the stream has arrived, a
    further submission is ignored: the handler returns at its first guard
    and the state is as it was. *)
Theorem second_submission_ignored
  (st : App) (env env' : TurnEnv) (t : Turn) (st2 : App)
  (chunks : list Chunk) (k : nat) :
  startTurn st env = InFlight t st2 ->
  handleSendMessage (midStream t chunks k st2) env'
  = Ignored (midStream t chunks k st2).
Proof.
  intros H. unfold midStream.
  destruct (streamLoop_frame t (firstn k chunks) (mkProgress [] [] st2))
    as [l ->]. cbn [during].
  assert (Hl : isLoading st2 = true).
  { unfold startTurn in H. destruct (acceptedText st) as [tx|]; [|discriminate].
    destruct (finalPromptToServer st tx); [|discriminate].
    injection H as _ <-. reflexivity. }
  unfold handleSendMessage, startTurn, acceptedText.
  cbn [isLoading setSessions]. rewrite Hl. reflexivity.
Qed.

Lemma second_submission_ignored_witness :
  handleSendMessage
    (midStream (mkTurn (lit "Summarise this.") false samplePrompt None
                  (lit "session_100") false)
       sampleChunks 1
       (clearInputs
          (setSessions
             (onActive (lit "session_100")
                (fun s =>
                   withMessages
                     (messages s ++
                      [userMessage sampleEnvEnds (lit "Summarise this.") None;
                       aiMessagePlaceholder sampleEnvEnds]) s))
             (setStage processing (setIsLoading true sampleApp)))))
    sampleEnvEnds
  = Ignored
      (midStream (mkTurn (lit "Summarise this.") false samplePrompt None
                    (lit "session_100") false)
         sampleChunks 1
         (clearInputs
            (setSessions
               (onActive (lit "session_100")
                  (fun s =>
                     withMessages
                       (messages s ++
                        [userMessage sampleEnvEnds (lit "Summarise this.")
                           None;
                         aiMessagePlaceholder sampleEnvEnds]) s))
               (setStage processing (setIsLoading true sampleApp))))).
Proof.
  refine (second_submission_ignored sampleApp sampleEnvEnds sampleEnvEnds
            _ _ sampleChunks 1 _).
  vm_compute; reflexivity.
Defined.

(** The state in which the [try] block's stream loop ends, for an accepted
    turn: the sessions bearing the active id hold [turnSession]. *)
Lemma turn_after_chunks (st : App) (env : TurnEnv) (text prompt : jsstring)
  (chunks : list Chunk) :
  acceptedText st = Some text ->
  finalPromptToServer st text = Some prompt ->
  exists t st2,
    startTurn st env = InFlight t st2
    /\ turn_session t = activeSessionId st
    /\ turn_text t = text
    /\ turn_attachment t = pending st
    /\ activeSessionId
         (during (streamLoop t chunks (mkProgress [] [] st2)))
       = activeSessionId st
    /\ fullResponseText (streamLoop t chunks (mkProgress [] [] st2))
       = streamText chunks
    /\ tracks (activeSessionId st)
         (fun s s' => s' = turnSession env text (pending st) chunks s)
         (sessions st)
         (sessions (during (streamLoop t chunks (mkProgress [] [] st2)))).
Proof.
  intros Ha Hp.
  destruct (startTurn_exact st env text prompt Ha Hp)
    as (t & st2 & Hst & Ht & Hact & _ & Htr).
  assert (Hts : turn_session t = activeSessionId st) by (subst t; reflexivity).
  exists t, st2. split; [exact Hst|]. split; [exact Hts|].
  split; [subst t; reflexivity|]. split; [subst t; reflexivity|].
  split; [now rewrite streamLoop_active|].
  rewrite <- Hts in Htr.
  destruct (streamLoop_exact env text (pending st) t (sessions st) st2 chunks
              Htr) as (Hf & _ & Hx).
  split; [exact Hf|]. now rewrite <- Hts.
Qed.

(** X14. A turn whose stream ends leaves, in the active session, the former log
    followed by the user message and one AI message: its content is the
    whole text of the stream, its cached parse is the parse of that text, and
    its citations are those of the last chunk that carried grounding
    metadata. With an empty stream the AI message is the empty placeholder. *)
Theorem completed_turn_transcript
  (st : App) (env : TurnEnv) (text prompt : jsstring) (chunks : list Chunk) :
  acceptedText st = Some text ->
  finalPromptToServer st text = Some prompt ->
  turnCompletes st env chunks ->
  exists st' s s',
    handleSendMessage st env = Settled st' 1
    /\ activeSession st = Some s
    /\ activeSession st' = Some s'
    /\ messages s'
       = messages s
         ++ [userMessage env text (pending st); turnMessage env chunks]
    /\ msg_content (turnMessage env chunks) = streamText chunks
    /\ (chunks <> [] ->
        parsedData (turnMessage env chunks)
        = Some (parseResponse (streamText chunks))
        /\ citations (turnMessage env chunks) = Some (lastGrounding chunks)).
Proof.
  intros Ha Hp [Hatt Hs].
  destruct (turn_after_chunks st env text prompt chunks Ha Hp)
    as (t & st2 & Hst & Hts & _ & Hta & Hact & _ & Htr).
  unfold handleSendMessage. rewrite Hst.
  destruct (tryBlock_completes t env st2 chunks) as (parts & E & _);
    [rewrite Hta; exact Hatt | exact Hs |].
  rewrite E. destruct (acceptedText_active st text Ha) as [s Hsa].
  set (p := streamLoop t chunks (mkProgress [] [] st2)) in *.
  assert (Hfin : tracks (activeSessionId st)
            (fun s s' => messages s'
                         = messages s ++ [userMessage env text (pending st);
                                          turnMessage env chunks])
            (sessions st)
            (sessions (setIsLoading false (onComplete t parts p)))).
  { cbn [sessions setIsLoading onComplete setStage setSessions]. rewrite Hts.
    eapply tracks_step; [|exact Htr].
    intros x x' ->. split; reflexivity. }
  unfold activeSession in Hsa.
  destruct (tracks_find _ _ _ _ s Hfin Hsa) as (s' & Hf' & Hm).
  eexists; exists s, s'. split; [reflexivity|]. split; [exact Hsa|].
  split.
  - unfold activeSession.
    replace (activeSessionId (setIsLoading false (onComplete t parts p)))
      with (activeSessionId st) by (symmetry; exact Hact).
    exact Hf'.
  - split; [exact Hm|]. split.
    + destruct chunks; reflexivity.
    + intros Hne. destruct chunks; [congruence|]. split; reflexivity.
Qed.

Lemma completed_turn_transcript_witness :
  exists st' s s',
    handleSendMessage sampleApp sampleEnvEnds = Settled st' 1
    /\ activeSession sampleApp = Some s
    /\ activeSession st' = Some s'
    /\ messages s'
       = messages s
         ++ [userMessage sampleEnvEnds (lit "Summarise this.")
               (pending sampleApp);
             turnMessage sampleEnvEnds sampleChunks]
    /\ msg_content (turnMessage sampleEnvEnds sampleChunks)
       = streamText sampleChunks
    /\ (sampleChunks <> [] ->
        parsedData (turnMessage sampleEnvEnds sampleChunks)
        = Some (parseResponse (streamText sampleChunks))
        /\ citations (turnMessage sampleEnvEnds sampleChunks)
           = Some (lastGrounding sampleChunks)).
Proof.
  refine (completed_turn_transcript sampleApp sampleEnvEnds
            (lit "Summarise this.") samplePrompt sampleChunks _ _ _).
  - vm_compute; reflexivity.
  - vm_compute; reflexivity.
  - split; [left; reflexivity | reflexivity].
Defined.

(** X15. When the stream throws after at least one chunk, the AI message gets
    the error text as its content but keeps the cached parse of the partial
    text, and the message block draws the cached parse: the partial response
    is shown, not the error section. When nothing had arrived, there is no
    cached parse and the error section is drawn. *)
Theorem failed_turn_keeps_partial_parse
  (st : App) (env : TurnEnv) (text prompt : jsstring) (chunks : list Chunk) :
  acceptedText st = Some text ->
  finalPromptToServer st text = Some prompt ->
  pending st = None \/ fileToBase64 env <> None ->
  sendMessageStream env = Some (chunks, false) ->
  exists st' s s' m,
    handleSendMessage st env = Settled st' 1
    /\ activeSession st = Some s
    /\ activeSession st' = Some s'
    /\ messages s' = messages s ++ [userMessage env text (pending st); m]
    /\ msg_content m = errorText
    /\ parsedResponseOf m
       = match chunks with
         | [] => parseResponse errorText
         | _ :: _ => parseResponse (streamText chunks)
         end.
Proof.
  intros Ha Hp Hatt Hs.
  destruct (turn_after_chunks st env text prompt chunks Ha Hp)
    as (t & st2 & Hst & Hts & _ & Hta & Hact & _ & Htr).
  unfold handleSendMessage. rewrite Hst.
  assert (E : tryBlock t env st2
              = (onError t (during (streamLoop t chunks
                                      (mkProgress [] [] st2))), 1%nat)).
  { unfold tryBlock. rewrite Hta, Hs.
    destruct (pending st) as [a|]; [|reflexivity].
    destruct (fileToBase64 env); [reflexivity|].
    destruct Hatt as [Hatt|Hatt]; [discriminate | congruence]. }
  rewrite E. destruct (acceptedText_active st text Ha) as [s Hsa].
  set (X := during (streamLoop t chunks (mkProgress [] [] st2))) in *.
  assert (Hfin : tracks (activeSessionId st)
            (fun s s' => messages s'
                         = messages s
                           ++ [userMessage env text (pending st);
                               withContent errorText (turnMessage env chunks)])
            (sessions st)
            (sessions (setIsLoading false (onError t X)))).
  { cbn [sessions setIsLoading onError setStage setSessions]. rewrite Hts.
    eapply tracks_step; [|exact Htr].
    intros x x' ->. split; [reflexivity|].
    unfold turnSession. cbn [messages withMessages].
    change (messages x ++ [userMessage env text (pending st);
                           turnMessage env chunks])
      with (messages x ++ [userMessage env text (pending st)]
            ++ [turnMessage env chunks]).
    rewrite app_assoc, overwriteLast_snoc, turnMessage_author, <- app_assoc.
    reflexivity. }
  unfold activeSession in Hsa.
  destruct (tracks_find _ _ _ _ s Hfin Hsa) as (s' & Hf' & Hm).
  eexists; exists s, s', (withContent errorText (turnMessage env chunks)).
  split; [reflexivity|]. split; [exact Hsa|]. split.
  - unfold activeSession.
    replace (activeSessionId (setIsLoading false (onError t X)))
      with (activeSessionId st) by (symmetry; exact Hact).
    exact Hf'.
  - split; [exact Hm|]. split; [reflexivity|].
    destruct chunks; reflexivity.
Qed.

Lemma failed_turn_keeps_partial_parse_witness :
  exists st' s s' m,
    handleSendMessage sampleApp sampleEnvThrows = Settled st' 1
    /\ activeSession sampleApp = Some s
    /\ activeSession st' = Some s'
    /\ messages s'
       = messages s
         ++ [userMessage sampleEnvThrows (lit "Summarise this.")
               (pending sampleApp); m]
    /\ msg_content m = errorText
    /\ parsedResponseOf m = parseResponse (streamText sampleChunks).
Proof.
  refine (failed_turn_keeps_partial_parse sampleApp sampleEnvThrows
            (lit "Summarise this.") samplePrompt sampleChunks _ _ _ _).
  - vm_compute; reflexivity.
  - vm_compute; reflexivity.
  - left; reflexivity.
  - reflexivity.
Defined.



Lemma filter_isUser_turn (env : TurnEnv) (text : jsstring)
  (a : option Attachment) (chunks : list Chunk) (ms : list Message) :
  List.length
    (filter isUser (ms ++ [userMessage env text a; turnMessage env chunks]))
  = S (List.length (filter isUser ms)).
Proof.
  rewrite filter_app, length_app. cbn [filter isUser userMessage author].
  unfold isUser at 2. rewrite turnMessage_author. simpl. lia.
Qed.

(** X16. A turn whose stream ends names the session after its text (the first 50
    code units) exactly when the session is still called "New Session" and
    held no user message before the turn; otherwise the name stays. *)
Theorem completed_turn_renames
  (st : App) (env : TurnEnv) (text prompt : jsstring) (chunks : list Chunk) :
  acceptedText st = Some text ->
  finalPromptToServer st text = Some prompt ->
  turnCompletes st env chunks ->
  exists st' s s',
    handleSendMessage st env = Settled st' 1
    /\ activeSession st = Some s
    /\ activeSession st' = Some s'
    /\ name s'
       = if Nat.eqb (List.length (filter isUser (messages s))) 0
            && str_eqb (name s) (lit "New Session")
         then substring0 50 text else name s.
Proof.
  intros Ha Hp [Hatt Hs].
  destruct (turn_after_chunks st env text prompt chunks Ha Hp)
    as (t & st2 & Hst & Hts & Htt & Hta & Hact & _ & Htr).
  unfold handleSendMessage. rewrite Hst.
  destruct (tryBlock_completes t env st2 chunks) as (parts & E & _);
    [rewrite Hta; exact Hatt | exact Hs |].
  rewrite E. destruct (acceptedText_active st text Ha) as [s Hsa].
  set (p := streamLoop t chunks (mkProgress [] [] st2)) in *.
  assert (Hfin : tracks (activeSessionId st)
            (fun s s' =>
               name s'
               = if Nat.eqb (List.length (filter isUser (messages s))) 0
                    && str_eqb (name s) (lit "New Session")
                 then substring0 50 text else name s)
            (sessions st)
            (sessions (setIsLoading false (onComplete t parts p)))).
  { cbn [sessions setIsLoading onComplete setStage setSessions]. rewrite Hts.
    eapply tracks_step; [|exact Htr].
    intros x x' ->. split; [reflexivity|].
    cbn [name withNameAndHistory]. unfold turnSession.
    cbn [messages withMessages name]. rewrite filter_isUser_turn, Htt.
    reflexivity. }
  unfold activeSession in Hsa.
  destruct (tracks_find _ _ _ _ s Hfin Hsa) as (s' & Hf' & Hm).
  eexists; exists s, s'. split; [reflexivity|]. split; [exact Hsa|].
  split; [|exact Hm].
  unfold activeSession.
  replace (activeSessionId (setIsLoading false (onComplete t parts p)))
    with (activeSessionId st) by (symmetry; exact Hact).
  exact Hf'.
Qed.

Lemma completed_turn_renames_witness :
  exists st' s s',
    handleSendMessage sampleNewApp sampleEnvEnds = Settled st' 1
    /\ activeSession sampleNewApp = Some s
    /\ activeSession st' = Some s'
    /\ name s'
       = if Nat.eqb (List.length (filter isUser (messages s))) 0
            && str_eqb (name s) (lit "New Session")
         then substring0 50 (lit "Summarise this.") else name s.
Proof.
  refine (completed_turn_renames sampleNewApp sampleEnvEnds
            (lit "Summarise this.") samplePrompt sampleChunks _ _ _).
  - vm_compute; reflexivity.
  - vm_compute; reflexivity.
  - split; [left; reflexivity | reflexivity].
Defined.

(** X17. Along a turn the updaters never meet an empty log: whatever part of any
    stream has arrived, every session bearing the active id ends with an AI
    message, the one the updaters overwrite. *)
Theorem startTurn_messages
  (st : App) (env : TurnEnv) (t : Turn) (st2 : App)
  (chunks : list Chunk) (k : nat) (s' : Session) :
  startTurn st env = InFlight t st2 ->
  In s' (sessions (midStream t chunks k st2)) ->
  id s' = activeSessionId st ->
  exists before m, messages s' = before ++ [m] /\ author m = ai.
Proof.
  intros Hst Hin Hid.
  assert (Hacc : exists text prompt,
             acceptedText st = Some text
             /\ finalPromptToServer st text = Some prompt).
  { unfold startTurn in Hst. destruct (acceptedText st) as [tx|];
      [|discriminate].
    destruct (finalPromptToServer st tx) as [pr|] eqn:Ep; [|discriminate].
    exists tx, pr. split; [reflexivity | exact Ep]. }
  destruct Hacc as (text & prompt & Ha & Hp).
  destruct (turn_after_chunks st env text prompt (firstn k chunks) Ha Hp)
    as (t' & st2' & Hst' & _ & _ & _ & _ & _ & Htr).
  rewrite Hst in Hst'. injection Hst' as <- <-.
  destruct (tracks_In _ _ _ _ s' Htr Hin) as (s & _ & Hids & Hrel).
  rewrite <- Hids, Hid, str_eqb_refl in Hrel. subst s'.
  exists (messages s ++ [userMessage env text (pending st)]),
    (turnMessage env (firstn k chunks)).
  split; [|apply turnMessage_author].
  unfold turnSession. cbn [messages withMessages].
  now rewrite <- app_assoc.
Qed.

Lemma startTurn_messages_witness :
  exists before m,
    messages
      (turnSession sampleEnvEnds (lit "Summarise this.") None
         (firstn 1 sampleChunks)
         (mkSession (lit "session_100") (lit "first") [] [] 100))
    = before ++ [m]
    /\ author m = ai.
Proof.
  refine (startTurn_messages sampleApp sampleEnvEnds
            (mkTurn (lit "Summarise this.") false samplePrompt None
               (lit "session_100") false)
            (clearInputs
               (setSessions
                  (onActive (lit "session_100")
                     (fun s =>
                        withMessages
                          (messages s ++
                           [userMessage sampleEnvEnds (lit "Summarise this.")
                              None;
                            aiMessagePlaceholder sampleEnvEnds]) s))
                  (setStage processing (setIsLoading true sampleApp))))
            sampleChunks 1 _ _ _ _).
  - vm_compute; reflexivity.
  - vm_compute. left; reflexivity.
  - reflexivity.
Defined.

(** X18. A critique is sent to the model as it was typed: no standing
    constraints, no mode marker, and no meta-question handling even when the
    text reads like one, detection being tied to the [awaiting_task]
    stage. *)
Theorem critique_sent_verbatim (st : App) (text : jsstring) :
  stage st = awaiting_critique ->
  isMetaQuestion (stage st) text = false
  /\ finalPromptToServer st text = Some text.
Proof.
  intros H. unfold finalPromptToServer, isMetaQuestion. rewrite H.
  split; reflexivity.
Qed.

Lemma critique_sent_verbatim_witness :
  isMetaQuestion (stage sampleCritiqueApp) (lit "Who are you? Proceed.")
  = false
  /\ finalPromptToServer sampleCritiqueApp (lit "Who are you? Proceed.")
     = Some (lit "Who are you? Proceed.").
Proof.
  refine (critique_sent_verbatim sampleCritiqueApp
            (lit "Who are you? Proceed.") _).
  reflexivity.
Defined.

(** X19. Building the prompt can only throw on a meta-question with the sources
    at hand, and it does so before the [try] block: the handler is left with
    loading on and the stage at [processing], the transcript untouched, and
    from that state every further submission is ignored. *)
Theorem prompt_failure_leaves_processing
  (st : App) (env env' : TurnEnv) (text : jsstring) :
  acceptedText st = Some text ->
  finalPromptToServer st text = None ->
  isMetaQuestion (stage st) text = true
  /\ sourceCode st <> None
  /\ handleSendMessage st env
     = Escaped (setStage processing (setIsLoading true st))
  /\ sessions (setStage processing (setIsLoading true st)) = sessions st
  /\ handleSendMessage (setStage processing (setIsLoading true st)) env'
     = Ignored (setStage processing (setIsLoading true st)).
Proof.
  intros Ha Hp.
  assert (Hm : isMetaQuestion (stage st) text = true /\ sourceCode st <> None).
  { unfold finalPromptToServer in Hp.
    destruct (isMetaQuestion (stage st) text); [|discriminate].
    destruct (sourceCode st); [split; [reflexivity|discriminate]|discriminate]. }
  destruct Hm as [Hm Hs]. split; [exact Hm|]. split; [exact Hs|].
  split; [|split; [reflexivity|reflexivity]].
  unfold handleSendMessage, startTurn. now rewrite Ha, Hp.
Qed.

Lemma prompt_failure_leaves_processing_witness :
  isMetaQuestion (stage brokenMetaApp) (lit "Who are you?") = true
  /\ sourceCode brokenMetaApp <> None
  /\ handleSendMessage brokenMetaApp sampleEnvEnds
     = Escaped (setStage processing (setIsLoading true brokenMetaApp))
  /\ sessions (setStage processing (setIsLoading true brokenMetaApp))
     = sessions brokenMetaApp
  /\ handleSendMessage (setStage processing (setIsLoading true brokenMetaApp))
       sampleEnvEnds
     = Ignored (setStage processing (setIsLoading true brokenMetaApp)).
Proof.
  refine (prompt_failure_leaves_processing brokenMetaApp sampleEnvEnds
            sampleEnvEnds (lit "Who are you?") _ _).
  - vm_compute; reflexivity.
  - vm_compute; reflexivity.
Defined.

(** ** Translation, rendering and export *)

Lemma setTranslating_frame (messageId : Z) (m : Message) :
  msg_id (setTranslating messageId m) = msg_id m
  /\ author (setTranslating messageId m) = author m
  /\ msg_content (setTranslating messageId m) = msg_content m.
Proof. unfold setTranslating. destruct (msg_id m =? messageId)%Z; auto. Qed.

Lemma translate_message (messageId : Z) (language text : jsstring)
  (m : Message) :
  setTranslation messageId language text (setTranslating messageId m)
  = if Z.eqb (msg_id m) messageId then
      mkMessage (msg_id m) (author m) (msg_content m) (citations m)
        (Some (mkTranslation language text)) (Some false) (attachment m)
        (parsedData m)
    else m.
Proof.
  unfold setTranslation, setTranslating.
  destruct (msg_id m =? messageId)%Z eqn:E; cbn [msg_id]; rewrite E;
    reflexivity.
Qed.

(** X20. A translation request changes nothing but the [translation] and
    [isTranslating] fields of the messages with the given id in the sessions
    bearing the active id: whether the model answers or the request fails,
    those messages end up not translating, with the answer, or the fixed
    failure text, as their translation; contents, histories, the stage and
    every other session are as before. *)
Theorem translate_touches_translation_only
  (messageId : Z) (language : jsstring) (response : option jsstring)
  (st : App) :
  aiReady st = true ->
  activeSessionId st <> [] ->
  stage (handleTranslate messageId language response st) = stage st
  /\ isLoading (handleTranslate messageId language response st) = isLoading st
  /\ activeSessionId (handleTranslate messageId language response st)
     = activeSessionId st
  /\ sessions (handleTranslate messageId language response st)
     = map (fun s =>
              if str_eqb (id s) (activeSessionId st) then
                withMessages
                  (map (fun m =>
                          if Z.eqb (msg_id m) messageId then
                            mkMessage (msg_id m) (author m) (msg_content m)
                              (citations m)
                              (Some (mkTranslation language
                                       match response with
                                       | Some t => t
                                       | None =>
                                           lit "Error: Translation failed."
                                       end))
                              (Some false) (attachment m) (parsedData m)
                          else m)
                     (messages s)) s
              else s)
         (sessions st)
  /\ map chatHistory (sessions (handleTranslate messageId language response st))
     = map chatHistory (sessions st)
  /\ map (fun s => map msg_content (messages s))
       (sessions (handleTranslate messageId language response st))
     = map (fun s => map msg_content (messages s)) (sessions st).
Proof.
  intros Hai Hact. apply truthy_nonempty in Hact.
  unfold handleTranslate. rewrite Hai, Hact. cbn [negb orb].
  split; [reflexivity|]. split; [reflexivity|]. split; [reflexivity|].
  cbn [sessions setSessions activeSessionId].
  assert (E : forall l,
             onActive (activeSessionId st)
               (fun s => withMessages
                           (map (setTranslation messageId language
                                   match response with
                                   | Some t => t
                                   | None => lit "Error: Translation failed."
                                   end) (messages s)) s)
               (onActive (activeSessionId st)
                  (fun s => withMessages
                              (map (setTranslating messageId) (messages s)) s)
                  l)
             = map (fun s =>
                      if str_eqb (id s) (activeSessionId st) then
                        withMessages
                          (map (fun m =>
                                  if Z.eqb (msg_id m) messageId then
                                    mkMessage (msg_id m) (author m)
                                      (msg_content m) (citations m)
                                      (Some (mkTranslation language
                                               match response with
                                               | Some t => t
                                               | None =>
                                                   lit "Error: Translation failed."
                                               end))
                                      (Some false) (attachment m)
                                      (parsedData m)
                                  else m)
                             (messages s)) s
                      else s) l).
  { intros l. unfold onActive. rewrite map_map. apply map_ext. intros s.
    destruct (str_eqb (id s) (activeSessionId st)) eqn:Es.
    - cbn [id withMessages]. rewrite Es. unfold withMessages.
      cbn [id name messages chatHistory createdAt].
      rewrite map_map. f_equal. apply map_ext. intros m.
      apply translate_message.
    - now rewrite Es. }
  rewrite E. split; [reflexivity|]. split.
  - rewrite map_map. apply map_ext. intros s.
    destruct (str_eqb (id s) (activeSessionId st)); reflexivity.
  - rewrite map_map. apply map_ext. intros s.
    destruct (str_eqb (id s) (activeSessionId st)); [|reflexivity].
    cbn [messages withMessages]. rewrite map_map. apply map_ext. intros m.
    destruct (msg_id m =? messageId)%Z; reflexivity.
Qed.

Lemma translate_touches_translation_only_witness :
  sessions (handleTranslate 2 (lit "German") (Some (lit "Entwurf")) sampleLogApp)
  = [ mkSession (lit "session_100") (lit "first")
        [ mkMessage 1 user (lit "question") None None None None None;
          mkMessage 2 ai (lit "[Draft]")
            (Some [mkCitation (lit "u") (lit "t")])
            (Some (mkTranslation (lit "German") (lit "Entwurf")))
            (Some false) None None ]
        [] 100;
      sampleOtherLog ]
  /\ sessions (handleTranslate 2 (lit "German") None sampleLogApp)
     = [ mkSession (lit "session_100") (lit "first")
           [ mkMessage 1 user (lit "question") None None None None None;
             mkMessage 2 ai (lit "[Draft]")
               (Some [mkCitation (lit "u") (lit "t")])
               (Some (mkTranslation (lit "German")
                        (lit "Error: Translation failed.")))
               (Some false) None None ]
           [] 100;
         sampleOtherLog ]
  /\ stage (handleTranslate 2 (lit "German") (Some (lit "Entwurf")) sampleLogApp)
     = stage sampleLogApp
  /\ map chatHistory
       (sessions (handleTranslate 2 (lit "German") (Some (lit "Entwurf"))
                    sampleLogApp))
     = map chatHistory (sessions sampleLogApp)
  /\ map (fun s => map msg_content (messages s))
       (sessions (handleTranslate 2 (lit "German") (Some (lit "Entwurf"))
                    sampleLogApp))
     = map (fun s => map msg_content (messages s)) (sessions sampleLogApp).
Proof.
  destruct (translate_touches_translation_only 2 (lit "German")
              (Some (lit "Entwurf")) sampleLogApp)
    as (H1 & _ & _ & H4 & H5 & H6);
    [reflexivity | vm_compute; discriminate |].
  destruct (translate_touches_translation_only 2 (lit "German") None
              sampleLogApp)
    as (_ & _ & _ & F4 & _);
    [reflexivity | vm_compute; discriminate |].
  split; [rewrite H4; vm_compute; reflexivity|].
  split; [rewrite F4; vm_compute; reflexivity|].
  split; [exact H1|]. split; [exact H5 | exact H6].
Defined.

Lemma last_app_tail {A} (a b : list A) (d : A) :
  b <> [] -> last (a ++ b) d = last b d.
Proof.
  intros Hb. induction a as [|x a IH]; [reflexivity|].
  cbn [app]. rewrite <- IH. destruct (a ++ b) eqn:E; [|reflexivity].
  apply app_eq_nil in E as [_ E]. congruence.
Qed.

(** X21. What is drawn of a log is its tail: at most 50 messages, all of them
    when the log is not longer, with the hidden part in front; the newest
    message is always drawn, and the notice of truncation is shown exactly
    when something is hidden. *)
Theorem rendered_is_recent_tail (ms : list Message) :
  exists hidden,
    ms = hidden ++ renderedMessages ms
    /\ List.length (renderedMessages ms)
       = Nat.min MAX_RENDERED_MESSAGES (List.length ms)
    /\ (isHistoryTruncated ms = true <-> hidden <> [])
    /\ (forall m, last ms m = last (renderedMessages ms) m).
Proof.
  unfold renderedMessages, isHistoryTruncated, MAX_RENDERED_MESSAGES.
  destruct (Nat.ltb_spec 50 (List.length ms)) as [H|H].
  - exists (firstn (List.length ms - 50) ms).
    split; [symmetry; apply firstn_skipn|].
    split; [rewrite length_skipn; lia|]. split.
    + split; [|reflexivity]. intros _ E.
      apply (f_equal (@List.length _)) in E. rewrite length_firstn in E.
      simpl in E. lia.
    + intros m.
      rewrite <- (firstn_skipn (List.length ms - 50) ms) at 1.
      apply last_app_tail. intros E.
      apply (f_equal (@List.length _)) in E. rewrite length_skipn in E.
      simpl in E. lia.
  - exists []. split; [reflexivity|]. split; [lia|]. split; [|reflexivity].
    split; [discriminate | congruence].
Qed.

Lemma join_occurs (sep x : jsstring) (l : list jsstring) :
  In x l -> exists a b, join sep l = a ++ x ++ b.
Proof.
  induction l as [|y l IH]; [intros []|].
  intros [->|Hin].
  - destruct l as [|z l].
    + exists [], []. simpl. now rewrite app_nil_r.
    + exists [], (sep ++ join sep (z :: l)). reflexivity.
  - destruct (IH Hin) as (a & b & E). destruct l as [|z l]; [destruct Hin|].
    exists (y ++ sep ++ a), b. cbn [join] in *. rewrite E.
    now rewrite <- !app_assoc.
Qed.

Lemma includes_app_r (x a s : jsstring) :
  includes x s = true -> includes x (a ++ s) = true.
Proof.
  rewrite !includes_occurs. intros (u & v & ->). exists (a ++ u), v.
  now rewrite <- app_assoc.
Qed.

Lemma includes_app_l (x s b : jsstring) :
  includes x s = true -> includes x (s ++ b) = true.
Proof.
  rewrite !includes_occurs. intros (u & v & ->). exists u, (v ++ b).
  now rewrite <- !app_assoc.
Qed.

Lemma includes_self (x : jsstring) : includes x x = true.
Proof. apply includes_occurs. exists [], []. now rewrite app_nil_r. Qed.

Lemma includes_head (x b : jsstring) : includes x (x ++ b) = true.
Proof. apply includes_app_l, includes_self. Qed.

(** X22. The exported log loses nothing of a message: the content of every
    message of the session occurs in it, and so do the content of its
    translation and the address of each of its citations. *)
Theorem export_holds_every_message (s : Session) (m : Message) :
  In m (messages s) ->
  includes (msg_content m) (exportLog s) = true
  /\ (forall t, translation m = Some t ->
                includes (tr_content t) (exportLog s) = true)
  /\ (forall cs c, citations m = Some cs -> In c cs ->
                   includes (uri c) (exportLog s) = true).
Proof.
  intros Hin.
  destruct (join_occurs exportSeparator (exportBlock m)
              (map exportBlock (messages s)) (in_map _ _ _ Hin))
    as (a & b & E).
  unfold exportLog. rewrite E. split; [|split].
  - apply includes_app_r, includes_app_l. unfold exportBlock. cbv zeta.
    do 4 apply includes_app_r. apply includes_head.
  - intros t Ht. apply includes_app_r, includes_app_l.
    unfold exportBlock. cbv zeta. rewrite Ht.
    do 11 apply includes_app_r. apply includes_self.
  - intros cs c Hc Hcin. apply includes_app_r, includes_app_l.
    unfold exportBlock. cbv zeta.
    rewrite Hc. destruct cs as [|c0 cs']; [destruct Hcin|].
    destruct (join_occurs [LF] (citationLine c)
                (map citationLine (c0 :: cs')) (in_map _ _ _ Hcin))
      as (a' & b' & E').
    rewrite E'. do 5 apply includes_app_r. apply includes_app_l.
    do 4 apply includes_app_r. apply includes_app_l.
    unfold citationLine. do 3 apply includes_app_r. apply includes_self.
Qed.

Lemma export_holds_every_message_witness :
  includes (lit "[Draft]") (exportLog sampleLog) = true
  /\ includes (lit "brouillon") (exportLog sampleLog) = true
  /\ includes (lit "u") (exportLog sampleLog) = true.
Proof.
  destruct (export_holds_every_message sampleLog
              (mkMessage 2 ai (lit "[Draft]")
                 (Some [mkCitation (lit "u") (lit "t")])
                 (Some (mkTranslation (lit "French") (lit "brouillon")))
                 None None None)) as (H1 & H2 & H3).
  - right; left; reflexivity.
  - split; [exact H1|]. split.
    + exact (H2 _ eq_refl).
    + exact (H3 _ (mkCitation (lit "u") (lit "t")) eq_refl
               (or_introl eq_refl)).
Defined.

(** X23. Renaming from the session manager: a blank entry changes nothing;
    otherwise the sessions with that id, and only they, take the trimmed
    entry as their name, which is neither empty nor padded with white space,
    and ids, logs, histories, creation times and the order of the store are
    as before. *)
Theorem rename_from_manager
  (sessionId renameValue : jsstring) (st : App) :
  sessionId <> [] ->
  (trim renameValue = [] ->
   handleRenameSubmit (Some sessionId) renameValue st = st)
  /\ (trim renameValue <> [] ->
      sessions (handleRenameSubmit (Some sessionId) renameValue st)
      = map (fun s => if str_eqb (id s) sessionId
                      then withName (trim renameValue) s else s)
          (sessions st)
      /\ trim (trim renameValue) = trim renameValue
      /\ map id (sessions (handleRenameSubmit (Some sessionId) renameValue st))
         = map id (sessions st)
      /\ map messages
           (sessions (handleRenameSubmit (Some sessionId) renameValue st))
         = map messages (sessions st)
      /\ map chatHistory
           (sessions (handleRenameSubmit (Some sessionId) renameValue st))
         = map chatHistory (sessions st)
      /\ activeSessionId (handleRenameSubmit (Some sessionId) renameValue st)
         = activeSessionId st).
Proof.
  intros Hid. apply truthy_nonempty in Hid.
  unfold handleRenameSubmit, handleRenameSession. rewrite Hid. split.
  - intros ->. reflexivity.
  - intros H. apply truthy_nonempty in H. rewrite H. cbn [andb].
    cbn [sessions setSessions activeSessionId].
    split; [reflexivity|]. split; [apply trim_idem|].
    repeat split; rewrite map_map; apply map_ext; intros s;
      destruct (str_eqb (id s) sessionId); reflexivity.
Qed.

Lemma rename_from_manager_witness :
  handleRenameSubmit (Some (lit "session_200")) (lit "   ") sampleApp
  = sampleApp
  /\ trim (lit "  Poems ") = lit "Poems"
  /\ sessions (handleRenameSubmit (Some (lit "session_200")) (lit "  Poems ")
                 sampleApp)
     = [ mkSession (lit "session_100") (lit "first") [] [] 100;
         mkSession (lit "session_200") (lit "Poems") [] [] 200;
         mkSession (lit "session_300") (lit "third") [] [] 300 ]
  /\ map id (sessions (handleRenameSubmit (Some (lit "session_200"))
                         (lit "  Poems ") sampleApp))
     = map id (sessions sampleApp)
  /\ activeSessionId (handleRenameSubmit (Some (lit "session_200"))
                        (lit "  Poems ") sampleApp)
     = activeSessionId sampleApp.
Proof.
  split.
  - refine (proj1 (rename_from_manager (lit "session_200") (lit "   ")
                     sampleApp _) _);
      [discriminate | vm_compute; reflexivity].
  - destruct (proj2 (rename_from_manager (lit "session_200") (lit "  Poems ")
                       sampleApp ltac:(discriminate)))
      as (H1 & _ & H3 & _ & _ & H6).
    + vm_compute; discriminate.
    + split; [vm_compute; reflexivity|].
      split; [rewrite H1; vm_compute; reflexivity|].
      split; [exact H3 | exact H6].
Defined.

(** ** Encoding, redaction and detection *)

Lemma b64char_unit (n : N) : (n < 64)%N -> isBase64Unit (b64char n) = true.
Proof.
  intros H. unfold isBase64Unit. now rewrite (b64val_b64char n H).
Qed.

Lemma base64_units_fuel (n : nat) (l : list N) :
  (List.length l <= n)%nat ->
  Forall (fun c => (c < 256)%N) l ->
  Forall (fun c => isBase64Unit c = true) (base64 l)
  /\ exists k, List.length (base64 l) = (4 * k)%nat.
Proof.
  revert l; induction n as [|n IH]; intros l Hl Hb.
  - destruct l; [|simpl in Hl; lia]. split; [constructor | now exists 0%nat].
  - destruct l as [|a [|b [|c r]]].
    + split; [constructor | now exists 0%nat].
    + inversion Hb as [|? ? Ha _]; subst. cbn [base64]. split.
      * repeat constructor; try (apply b64char_unit; ndiv).
      * now exists 1%nat.
    + inversion Hb as [|? ? Ha Hb']; subst.
      inversion Hb' as [|? ? Hb1 _]; subst. cbn [base64]. split.
      * repeat constructor; try (apply b64char_unit; ndiv).
      * now exists 1%nat.
    + inversion Hb as [|? ? Ha Hb']; subst.
      inversion Hb' as [|? ? Hb1 Hb'']; subst.
      inversion Hb'' as [|? ? Hc Hr]; subst.
      destruct (IH r) as [IH1 [k IH2]]; [simpl in Hl; lia | exact Hr |].
      cbn [base64]. split.
      * apply Forall_app. split; [|exact IH1].
        repeat constructor; apply b64char_unit; ndiv.
      * exists (S k). rewrite length_app, IH2. simpl. lia.
Qed.

(** X24. The encoding of a file round-trips: every well-formed text, with any
    characters outside ASCII, is encoded ([btoa] raises on nothing the
    UTF-8 step produces), the result is made of units of the Base64
    alphabet and padding in groups of four, and decoding it gives the text
    back. *)
Theorem encoding_round_trip (text : jsstring) :
  utf8 text <> None ->
  exists blob,
    encodeContent text = Some blob
    /\ decodeContent blob = Some text
    /\ Forall (fun c => isBase64Unit c = true) blob
    /\ exists k, List.length blob = (4 * k)%nat.
Proof.
  intros H. destruct (encodeContent_defined text H) as [blob E].
  exists blob. split; [exact E|]. split; [now apply decode_encodeContent|].
  unfold encodeContent, btoa in E.
  destruct (utf8 text) as [octets|] eqn:Eu; [|discriminate].
  destruct (forallb _ octets); [|discriminate].
  apply Some_inj in E. subst blob.
  apply (base64_units_fuel (List.length octets)); [lia|].
  eapply utf8_bytes; eauto.
Qed.

Lemma encoding_round_trip_witness :
  exists blob,
    encodeContent (lit "<title>ZERO " ++ [8212%N] ++ lit " Engine</title>")
    = Some blob
    /\ decodeContent blob
       = Some (lit "<title>ZERO " ++ [8212%N] ++ lit " Engine</title>")
    /\ Forall (fun c => isBase64Unit c = true) blob
    /\ exists k, List.length blob = (4 * k)%nat.
Proof.
  refine (encoding_round_trip _ _). vm_compute; discriminate.
Defined.

Lemma after_close_none (s : jsstring) :
  includes CLOSE s = false -> after_close s = None.
Proof.
  induction s as [|c r IH]; [reflexivity|].
  cbn [includes after_close]. intros H.
  apply orb_false_iff in H as [H1 H2]. rewrite H1. now apply IH.
Qed.

Lemma includes_skipn (p s : jsstring) (n : nat) :
  includes p s = false -> includes p (skipn n s) = false.
Proof.
  intros H. destruct (includes p (skipn n s)) eqn:E; [|reflexivity].
  rewrite <- (firstn_skipn n s) in H.
  now rewrite (includes_app_r _ _ _ E) in H.
Qed.

(** X25. Redaction changes nothing in a source that does not hold the opening
    of the declaration, or that holds no back-quote followed by a
    semicolon: the text is sent as it is. *)
Theorem redact_without_block (s : jsstring) :
  includes OPEN s = false \/ includes CLOSE s = false -> redact s = s.
Proof.
  intros [H|H].
  - induction s as [|c r IH]; [reflexivity|].
    cbn [includes] in H. apply orb_false_iff in H as [H1 H2].
    rewrite redact_skip by exact H1. now rewrite IH.
  - induction s as [|c r IH]; [reflexivity|].
    assert (Hr : includes CLOSE r = false).
    { cbn [includes] in H. now apply orb_false_iff in H as [_ H]. }
    cbn [redact].
    rewrite (after_close_none _ (includes_skipn _ _ _ H)).
    rewrite (IH Hr). now destruct (startsWith OPEN (c :: r)).
Qed.

Lemma redact_without_block_witness :
  redact (lit "const x = 1;") = lit "const x = 1;".
Proof.
  refine (redact_without_block (lit "const x = 1;") _).
  left. vm_compute; reflexivity.
Defined.

Lemma canonicalize_idem (c : N) :
  canonicalize (canonicalize c) = canonicalize c.
Proof.
  unfold canonicalize.
  destruct ((97 <=? c) && (c <=? 122))%N eqn:E; [|now rewrite E].
  apply andb_true_iff in E as [E1 E2].
  apply N.leb_le in E1. apply N.leb_le in E2.
  destruct (N.leb_spec 97 (c - 32)); [lia | reflexivity].
Qed.

Lemma startsWith_ci_canon (p s : jsstring) :
  startsWith_ci p (map canonicalize s) = startsWith_ci p s.
Proof.
  revert s; induction p as [|x p IH]; intros [|y s]; cbn [startsWith_ci map];
    try reflexivity.
  now rewrite canonicalize_idem, IH.
Qed.

Lemma includes_ci_canon (p s : jsstring) :
  includes_ci p (map canonicalize s) = includes_ci p s.
Proof.
  induction s as [|y s IH].
  - reflexivity.
  - change (map canonicalize (y :: s))
      with (canonicalize y :: map canonicalize s).
    cbn [includes_ci]. rewrite IH. f_equal.
    apply (startsWith_ci_canon p (y :: s)).
Qed.

Lemma startsWith_ci_app (p s b : jsstring) :
  startsWith_ci p s = true -> startsWith_ci p (s ++ b) = true.
Proof.
  revert s; induction p as [|x p IH]; intros s; [reflexivity|].
  destruct s as [|y s]; [discriminate|].
  cbn [startsWith_ci app]. rewrite !andb_true_iff.
  intros [H1 H2]. split; [exact H1 | now apply IH].
Qed.

Lemma includes_ci_app_l (p s b : jsstring) :
  includes_ci p s = true -> includes_ci p (s ++ b) = true.
Proof.
  induction s as [|y s IH]; intros H.
  - destruct p as [|x p]; [destruct b; reflexivity | discriminate H].
  - change ((y :: s) ++ b) with (y :: (s ++ b)).
    cbn [includes_ci] in *. apply orb_true_iff in H as [H|H].
    + apply orb_true_iff. left.
      exact (startsWith_ci_app p (y :: s) b H).
    + apply orb_true_iff. right. now apply IH.
Qed.

Lemma includes_ci_app_r (p a s : jsstring) :
  includes_ci p s = true -> includes_ci p (a ++ s) = true.
Proof.
  intros H. induction a as [|x a IH]; [exact H|].
  change ((x :: a) ++ s) with (x :: (a ++ s)). cbn [includes_ci].
  rewrite IH. apply orb_true_r.
Qed.

Lemma includes_ci_app (p a s b : jsstring) :
  includes_ci p s = true -> includes_ci p (a ++ s ++ b) = true.
Proof. intros H. now apply includes_ci_app_r, includes_ci_app_l. Qed.

(** X26. Detection of a meta-question looks for the phrases anywhere in the
    text and takes no account of the case of ASCII letters: re-casing the
    text does not change the verdict, and a detected text stays detected
    with anything written before or after it. *)
Theorem meta_detection_heuristic (s : Stage) (text : jsstring) :
  isMetaQuestion s (map canonicalize text) = isMetaQuestion s text
  /\ (isMetaQuestion s text = true ->
      forall before after,
        isMetaQuestion s (before ++ text ++ after) = true).
Proof.
  unfold isMetaQuestion. split.
  - f_equal. induction metaPhrases as [|p l IH]; [reflexivity|].
    cbn [existsb]. now rewrite includes_ci_canon, IH.
  - rewrite andb_true_iff. intros [Hs H] before after. rewrite Hs.
    cbn [andb]. apply existsb_exists in H as (p & Hp & Hi).
    apply existsb_exists. exists p. split; [exact Hp|].
    now apply includes_ci_app.
Qed.

Lemma meta_detection_heuristic_witness :
  isMetaQuestion awaiting_task
    (lit "Tell me: " ++ lit "Who Are You" ++ lit "?") = true.
Proof.
  refine (proj2 (meta_detection_heuristic awaiting_task (lit "Who Are You")) _
            (lit "Tell me: ") (lit "?")).
  vm_compute; reflexivity.
Defined.

(** ** Section parser: reading back a response *)

Lemma title_group_app (t x : jsstring) :
  ~ In RBRACKET t -> title_group (t ++ RBRACKET :: x) = Some (t, x).
Proof.
  induction t as [|c t IH]; intros H; cbn [app title_group].
  - now rewrite N.eqb_refl.
  - destruct (N.eqb_spec c RBRACKET) as [->|_]; [exfalso; apply H; now left|].
    rewrite IH; [reflexivity|]. intros Hin. apply H. now right.
Qed.

Lemma trimStart_length (s : jsstring) :
  (List.length (trimStart s) <= List.length s)%nat.
Proof.
  induction s as [|c r IH]; simpl; [lia|].
  destruct (isWhiteSpace c); simpl; lia.
Qed.

Lemma trimEnd_length (s : jsstring) :
  (List.length (trimEnd s) <= List.length s)%nat.
Proof.
  unfold trimEnd. rewrite length_rev.
  pose proof (trimStart_length (rev s)) as H. now rewrite length_rev in H.
Qed.

Lemma trimmed_head (c : N) (r : jsstring) :
  trim (c :: r) = c :: r -> isWhiteSpace c = false.
Proof.
  intros H. destruct (isWhiteSpace c) eqn:E; [|reflexivity]. exfalso.
  apply (f_equal (@List.length _)) in H. unfold trim in H.
  cbn [trimStart] in H. rewrite E in H.
  pose proof (trimEnd_length (trimStart r)).
  pose proof (trimStart_length r). simpl in H. lia.
Qed.

Lemma content_group_stop (c rest : jsstring) :
  includes sectionBreak c = false ->
  rest = [] \/ (exists more, rest = LF :: LF :: LBRACKET :: more) ->
  content_group (c ++ rest) = c.
Proof.
  intros Hc Hrest. induction c as [|x c IH].
  - cbn [app]. destruct Hrest as [->|[more ->]]; reflexivity.
  - cbn [includes] in Hc. apply orb_false_iff in Hc as [H1 H2].
    cbn [app content_group].
    replace (section_end (x :: c ++ rest)) with false; [now rewrite IH|].
    symmetry. unfold section_end. fold sectionBreak.
    destruct c as [|y [|z c]].
    + destruct Hrest as [->|[more ->]]; unfold sectionBreak;
        cbn [app startsWith]; destruct (N.eqb LF x); reflexivity.
    + destruct Hrest as [->|[more ->]]; unfold sectionBreak;
        cbn [app startsWith]; destruct (N.eqb LF x), (N.eqb LF y);
        reflexivity.
    + rewrite <- H1. unfold sectionBreak. cbn [app startsWith].
      reflexivity.
Qed.

Lemma exec_all_skip (a s : jsstring) (k : nat) :
  exec_all (List.length a + k) (a ++ s) = exec_all k s.
Proof. induction a as [|x a IH]; [reflexivity | exact IH]. Qed.

Lemma exec_all_blank_line (s : jsstring) :
  exec_all O (LF :: LF :: s) = exec_all O s.
Proof. reflexivity. Qed.

Lemma exec_all_tagged (s : Section) (rest : jsstring) :
  protocolSection s ->
  rest = [] \/ (exists more, rest = LF :: LF :: LBRACKET :: more) ->
  exec_all O (tagged s ++ rest) = s :: exec_all O rest.
Proof.
  intros (Ht & Htt & Hb & Hc & Hct & Hi) Hrest.
  destruct s as [t c]. cbn [title content] in *.
  destruct c as [|c0 c]; [congruence|].
  pose proof (trimmed_head c0 c Hct) as Hws.
  unfold tagged. cbn [title content app exec_all].
  assert (Em : match_at (LBRACKET :: (t ++ RBRACKET :: LF :: c0 :: c) ++ rest)
               = Some (t, c0 :: c,
                       (1 + List.length t + 1 + 1 + List.length (c0 :: c))%nat)).
  { unfold match_at. rewrite N.eqb_refl, <- app_assoc. cbn [app].
    rewrite (title_group_app t _ Hb).
    destruct t as [|t0 t]; [congruence|].
    cbn [skip_space]. change (isWhiteSpace LF) with true. cbn iota.
    cbn [skip_space]. rewrite Hws.
    change (c0 :: c ++ rest) with ((c0 :: c) ++ rest).
    rewrite (content_group_stop _ _ Hi Hrest). reflexivity. }
  rewrite Em, Htt, Hct. f_equal.
  replace (1 + List.length t + 1 + 1 + List.length (c0 :: c) - 1)%nat
    with (List.length (t ++ RBRACKET :: LF :: c0 :: c) + 0)%nat
    by (rewrite length_app; simpl; lia).
  apply exec_all_skip.
Qed.

Lemma tagged_head (s : Section) : exists more, tagged s = LBRACKET :: more.
Proof. eexists; reflexivity. Qed.

Lemma exec_all_responseText (secs : list Section) :
  Forall protocolSection secs ->
  exec_all O (responseText secs) = secs.
Proof.
  unfold responseText. induction 1 as [|s secs Hs Hall IH]; [reflexivity|].
  destruct secs as [|s2 secs].
  - cbn [map join]. rewrite <- (app_nil_r (tagged s)).
    rewrite (exec_all_tagged s [] Hs (or_introl eq_refl)). reflexivity.
  - change (join [LF; LF] (map tagged (s :: s2 :: secs)))
      with (tagged s ++ [LF; LF] ++ join [LF; LF] (map tagged (s2 :: secs))).
    set (tail := join [LF; LF] (map tagged (s2 :: secs))) in *.
    assert (Ht : exists more, tail = LBRACKET :: more).
    { unfold tail. cbn [map join]. destruct (tagged_head s2) as [more E].
      destruct (map tagged secs); rewrite E; eexists; reflexivity. }
    destruct Ht as [more Ht].
    rewrite exec_all_tagged; [|exact Hs|].
    + cbn [app]. rewrite exec_all_blank_line. now rewrite IH.
    + right. exists more. cbn [app]. now rewrite Ht.
Qed.

Lemma dot_until_close_app (t x : jsstring) :
  (forall c, In c t -> isLineTerminator c = false) ->
  dot_until_close (t ++ RBRACKET :: x) = true.
Proof.
  induction t as [|c t IH]; intros H; cbn [app dot_until_close].
  - now rewrite N.eqb_refl.
  - destruct (N.eqb c RBRACKET); [reflexivity|].
    rewrite (H c (or_introl eq_refl)). apply IH. intros d Hd. apply H.
    now right.
Qed.

(** X1. Reading back a response. A text made of sections as the protocol
    writes them, each a bracketed title, a line break and its content, with
    blank lines between them, is parsed by the section expression into
    exactly those sections, in order. When the first title holds no line
    terminator, [parseResponse] returns them as the flat list, or, if one of
    them is a refined answer, as their chain decomposition. *)
Theorem sections_read_back (secs : list Section) :
  Forall protocolSection secs ->
  exec_all O (responseText secs) = secs
  /\ (forall first rest,
        secs = first :: rest ->
        (forall c, In c (title first) -> isLineTerminator c = false) ->
        parseResponse (responseText secs)
        = if existsb isRefined secs
          then mkParsed true (Chain (decompose secs))
          else mkParsed false (Flat secs)).
Proof.
  intros H. pose proof (exec_all_responseText secs H) as E.
  split; [exact E|]. intros first rest -> Hlt.
  unfold parseResponse. rewrite E.
  assert (Hb : has_bracket_tag (responseText (first :: rest)) = true).
  { unfold responseText. cbn [map join].
    assert (Hh : forall x, has_bracket_tag (tagged first ++ x) = true).
    { intros x. unfold tagged. cbn [app has_bracket_tag].
      rewrite N.eqb_refl, <- app_assoc. cbn [app].
      now rewrite (dot_until_close_app _ _ Hlt). }
    destruct (map tagged rest).
    - rewrite <- (app_nil_r (tagged first)). apply Hh.
    - apply Hh. }
  rewrite Hb. cbn [negb andb List.length Nat.eqb].
  destruct (existsb isRefined (first :: rest)); reflexivity.
Qed.

Lemma sections_read_back_witness :
  exec_all O
    (responseText
       [ mkSection (lit "Task") (lit "Write a poem.");
         mkSection (lit "C4 Score") (lit "0.85 - short and clear.");
         mkSection (lit "Draft") (lit "Roses are red.") ])
  = [ mkSection (lit "Task") (lit "Write a poem.");
      mkSection (lit "C4 Score") (lit "0.85 - short and clear.");
      mkSection (lit "Draft") (lit "Roses are red.") ].
Proof.
  refine (proj1 (sections_read_back _ _)).
  repeat constructor; try (vm_compute; reflexivity);
    try (intros H; vm_compute in H; discriminate H);
    try (vm_compute; intuition discriminate).
Defined.

(** X3. A section without content swallows the section that follows it. After
    the title, [\s*] takes the blank line, so the next tag is no longer
    preceded by one: it is read as the content of the first section, with
    everything up to the next blank line followed by a bracket, here the end
    of the text. *)
Theorem empty_section_swallows_next (t next : jsstring) :
  t <> [] -> ~ In RBRACKET t ->
  includes sectionBreak (LBRACKET :: next) = false ->
  exec_all O (LBRACKET :: t ++ RBRACKET :: LF :: LF :: LBRACKET :: next)
  = [mkSection (trim t) (trim (LBRACKET :: next))].
Proof.
  intros Ht Hb Hi. cbn [exec_all].
  assert (Em : match_at (LBRACKET :: t ++ RBRACKET :: LF :: LF
                                     :: LBRACKET :: next)
               = Some (t, LBRACKET :: next,
                       (1 + List.length t + 1 + 2
                        + List.length (LBRACKET :: next))%nat)).
  { unfold match_at. rewrite N.eqb_refl, (title_group_app t _ Hb).
    destruct t as [|t0 t]; [congruence|].
    cbn [skip_space]. change (isWhiteSpace LF) with true. cbn iota.
    change (isWhiteSpace LBRACKET) with false. cbn iota.
    assert (Ec : content_group (LBRACKET :: next) = LBRACKET :: next).
    { pose proof (content_group_stop _ [] Hi (or_introl eq_refl)) as Ec.
      now rewrite app_nil_r in Ec. }
    rewrite Ec. reflexivity. }
  rewrite Em. f_equal.
  replace (1 + List.length t + 1 + 2 + List.length (LBRACKET :: next) - 1)%nat
    with (List.length (t ++ RBRACKET :: LF :: LF :: LBRACKET :: next) + 0)%nat
    by (rewrite length_app; simpl; lia).
  rewrite <- (app_nil_r (t ++ RBRACKET :: LF :: LF :: LBRACKET :: next)) at 2.
  apply exec_all_skip.
Qed.

Lemma empty_section_swallows_next_witness :
  exec_all O (LBRACKET :: lit "Task" ++ RBRACKET :: LF :: LF :: LBRACKET
                       :: lit "Draft] Roses are red.")
  = [mkSection (trim (lit "Task"))
       (trim (LBRACKET :: lit "Draft] Roses are red."))].
Proof.
  refine (empty_section_swallows_next (lit "Task")
            (lit "Draft] Roses are red.") _ _ _).
  - discriminate.
  - vm_compute; intuition discriminate.
  - vm_compute; reflexivity.
Defined.


